(** * PlaywrightWrapper: a shallow embedding of
      src/helper/wrapper/PlaywrightWrappers.ts

    The class is a facade over a browser page handle, plus a few data
    utilities (random strings, date and currency formatting).  The facade
    methods are embedded over an abstract page handle; the ECMAScript
    built-ins the utilities call (strings, Numbers, parseFloat, charAt,
    String.prototype.replace with the one regular expression used, the
    currency formatter) are written out below. *)

From Stdlib Require Import Ascii String.
From Stdlib Require Import ZArith List Bool Lia.
From Stdlib Require Import Floats.SpecFloat.
From Stdlib Require DecimalPos DecimalN.
Import ListNotations.

Open Scope Z_scope.

(** ** ECMAScript strings: sequences of UTF-16 code units *)

Module JSString.

Definition char16 := N.
Definition jsstring := list char16.

(** A string literal of the source (all of them are ASCII). *)
Definition str (s : string) : jsstring :=
  map N_of_ascii (list_ascii_of_string s).

(** [s1 === s2] on strings: same code units in the same order. *)
Fixpoint eqb (s1 s2 : jsstring) : bool :=
  match s1, s2 with
  | [], [] => true
  | c1 :: r1, c2 :: r2 => N.eqb c1 c2 && eqb r1 r2
  | _, _ => false
  end.

Definition is_digit (c : char16) : bool := (N.leb 48 c && N.leb c 57)%bool.

Definition digit_value (c : char16) : Z := Z.of_N c - 48.

End JSString.
Import JSString.

(** ** ECMAScript Numbers: IEEE 754 binary64 *)

Module JSNumber.

Definition prec : Z := 53.
Definition emax : Z := 1024.

Definition Number := spec_float.

(** The Number is one of the canonical binary64 values. *)
Definition wf (x : Number) : bool := valid_binary prec emax x.

Definition of_Z (n : Z) : Number := binary_normalize prec emax n 0 false.

Definition mul (x y : Number) : Number := SFmul prec emax x y.

Definition isNaN (x : Number) : bool :=
  match x with S754_nan => true | _ => false end.

Definition ltb (x y : Number) : bool := SFltb x y.
Definition leb (x y : Number) : bool := SFleb x y.

(** Result of ToIntegerOrInfinity. *)
Inductive IntOrInf := Int (z : Z) | PlusInf | MinusInf.

(** ToIntegerOrInfinity: NaN and the zeros give 0, the infinities stay,
    anything else is truncated towards zero. *)
Definition ToIntegerOrInfinity (x : Number) : IntOrInf :=
  match x with
  | S754_nan => Int 0
  | S754_zero _ => Int 0
  | S754_infinity false => PlusInf
  | S754_infinity true => MinusInf
  | S754_finite s m e =>
      let a := if 0 <=? e then Z.shiftl (Zpos m) e
               else Z.shiftr (Zpos m) (- e) in
      Int (cond_Zopp s a)
  end.

(** Math.floor: the greatest integral Number not above [x]. *)
Definition floor (x : Number) : Number :=
  match x with
  | S754_finite s m e =>
      if 0 <=? e then x
      else
        let n := Z.shiftr (cond_Zopp s (Zpos m)) (- e) in
        if n =? 0 then S754_zero false else of_Z n
  | _ => x
  end.

End JSNumber.
Import JSNumber.

(** String.prototype.charAt: the one-unit string at [pos], or the empty
    string when [pos] (after ToIntegerOrInfinity) is not an index. *)
Definition charAt (s : jsstring) (pos : Number) : jsstring :=
  match ToIntegerOrInfinity pos with
  | Int p =>
      if (p <? 0) || (Z.of_nat (length s) <=? p) then []
      else match nth_error s (Z.to_nat p) with
           | Some c => [c]
           | None => []
           end
  | _ => []
  end.

Definition str_length (s : jsstring) : Number := of_Z (Z.of_nat (length s)).


(** ** parseFloat (ECMA-262, 19.2.4) *)

Module ParseFloat.

(** WhiteSpace and LineTerminator code units, as stripped by TrimString. *)
Definition is_whitespace (c : char16) : bool :=
  existsb (N.eqb c)
    [9; 10; 11; 12; 13; 32; 160; 5760; 8192; 8193; 8194; 8195; 8196; 8197;
     8198; 8199; 8200; 8201; 8202; 8232; 8233; 8239; 8287; 12288; 65279]%N.

Fixpoint trim_start (s : jsstring) : jsstring :=
  match s with
  | c :: r => if is_whitespace c then trim_start r else s
  | [] => []
  end.

(** The longest run of DecimalDigits at the front, and what follows it. *)
Fixpoint span_digits (s : jsstring) : jsstring * jsstring :=
  match s with
  | c :: r =>
      if is_digit c then let (d, t) := span_digits r in (c :: d, t)
      else ([], s)
  | [] => ([], [])
  end.

Definition digits_value (ds : jsstring) : Z :=
  fold_left (fun acc c => 10 * acc + digit_value c) ds 0.

(** An optional [+] or [-]; the flag says the sign is negative. *)
Definition parse_sign (s : jsstring) : bool * jsstring :=
  match s with
  | c :: r =>
      if N.eqb c 45 then (true, r)
      else if N.eqb c 43 then (false, r)
      else (false, s)
  | [] => (false, [])
  end.

Fixpoint starts_with (p s : jsstring) : bool :=
  match p, s with
  | [], _ => true
  | a :: p', b :: s' => N.eqb a b && starts_with p' s'
  | _ :: _, [] => false
  end.

(** ExponentPart, when one can be read at the front of [s]; 0 otherwise. *)
Definition exponent_part (s : jsstring) : Z :=
  match s with
  | c :: r =>
      if N.eqb c 101 || N.eqb c 69 then
        let (neg, r') := parse_sign r in
        match fst (span_digits r') with
        | [] => 0
        | ds => cond_Zopp neg (digits_value ds)
        end
      else 0
  | [] => 0
  end.

Inductive literal :=
| LitInfinity
| LitDecimal (mantissa : Z) (exp10 : Z).   (* mantissa * 10 ^ exp10 *)

(** The longest prefix of [s] that is a StrUnsignedDecimalLiteral. *)
Definition StrUnsignedDecimalLiteral (s : jsstring) : option literal :=
  if starts_with (str "Infinity") s then Some LitInfinity
  else
    let (ip, r1) := span_digits s in
    let (fp, r2) := match r1 with
                    | c :: r => if N.eqb c 46 then span_digits r
                                else ([], r1)
                    | [] => ([], [])
                    end in
    match ip ++ fp with
    | [] => None
    | ds => Some (LitDecimal (digits_value ds)
                    (exponent_part r2 - Z.of_nat (length fp)))
    end.

(** The Number value for [mantissa * 10 ^ exp10]: round to nearest, ties to
    even. *)
Definition decimal_to_number (neg : bool) (mantissa exp10 : Z) : Number :=
  if mantissa =? 0 then S754_zero neg
  else if 0 <=? exp10 then
    binary_normalize prec emax (cond_Zopp neg (mantissa * 10 ^ exp10)) 0 false
  else
    let '(q, e, l) :=
      SFdiv_core_binary prec emax mantissa 0 (10 ^ (- exp10)) 0 in
    binary_round_aux prec emax neg q e l.

Definition parseFloat (s : jsstring) : Number :=
  let (neg, r) := parse_sign (trim_start s) in
  match StrUnsignedDecimalLiteral r with
  | None => S754_nan
  | Some LitInfinity => S754_infinity neg
  | Some (LitDecimal m e) => decimal_to_number neg m e
  end.

End ParseFloat.
Import ParseFloat.

(** ** Number.prototype.toLocaleString('en-US', { style: 'currency',
       currency: 'USD' }) (ECMA-402, as V8 implements it over ICU)

    The digits of the Number are those of the integer it is, when it is one
    below 2 ^ 53, and otherwise those of the shortest decimal that reads
    back as the same Number (the digits Number.prototype.toString prints).
    These digits are rounded to two fraction digits, half away from zero,
    and the integer part is written in groups of three. *)

Module Currency.

Fixpoint uint_digits (u : Decimal.uint) : jsstring :=
  match u with
  | Decimal.Nil => []
  | Decimal.D0 r => 48%N :: uint_digits r
  | Decimal.D1 r => 49%N :: uint_digits r
  | Decimal.D2 r => 50%N :: uint_digits r
  | Decimal.D3 r => 51%N :: uint_digits r
  | Decimal.D4 r => 52%N :: uint_digits r
  | Decimal.D5 r => 53%N :: uint_digits r
  | Decimal.D6 r => 54%N :: uint_digits r
  | Decimal.D7 r => 55%N :: uint_digits r
  | Decimal.D8 r => 56%N :: uint_digits r
  | Decimal.D9 r => 57%N :: uint_digits r
  end.

(** Decimal digits of a non-negative integer, without leading zeros. *)
Definition decimal (n : Z) : jsstring := uint_digits (N.to_uint (Z.to_N n)).

(** Digits of [n], padded with zeros on the left to [width]. *)
Definition padded (width : nat) (n : Z) : jsstring :=
  let ds := decimal n in
  repeat 48%N (width - length ds) ++ ds.

(** Separate groups of three digits, counted from the right, by commas. *)
Fixpoint group_rev (ds : jsstring) (k : nat) : jsstring :=
  match ds with
  | [] => []
  | d :: r =>
      match k, r with
      | 2%nat, _ :: _ => d :: 44%N :: group_rev r 0
      | _, _ => d :: group_rev r (S k)
      end
  end.

Definition grouped (ds : jsstring) : jsstring := rev (group_rev (rev ds) 0).

(** The integer a finite Number [m * 2 ^ e] is, when it is one below
    2 ^ 53: the formatter takes the digits of such a Number from the
    integer itself. *)
Definition small_integer (m : positive) (e : Z) : option Z :=
  if 0 <=? e then
    let v := Zpos m * 2 ^ e in
    if v <? 2 ^ 53 then Some v else None
  else
    let v := Zpos m / 2 ^ (- e) in
    if (Zpos m mod 2 ^ (- e) =? 0) && (v <? 2 ^ 53) then Some v else None.

(** The rounding interval of the magnitude [m * 2 ^ e]: the decimals that
    read back as this Number.  The interval and the magnitude are the
    numerators [lo], [mid], [hi] over the denominator [den]; its ends belong
    to it when the significand is even (ties go to even). *)
Record interval := {
  lo : Z;
  mid : Z;
  hi : Z;
  den : Z;
  closed : bool
}.

Definition rounding_interval (m : positive) (e : Z) : interval :=
  let below :=
    if (Zpos m =? 2 ^ (prec - 1)) && (3 - emax - prec <? e)
    then 4 * Zpos m - 1 else 4 * Zpos m - 2 in
  let scale := 2 ^ Z.max 0 (e - 2) in
  {| lo := below * scale;
     mid := 4 * Zpos m * scale;
     hi := (4 * Zpos m + 2) * scale;
     den := 2 ^ Z.max 0 (2 - e);
     closed := Z.even (Zpos m) |}.

(** Upper bound of the decimal exponents [p] with [10 ^ p] in or below the
    interval. *)
Definition first_exponent (i : interval) : Z :=
  (Z.log2 (hi i) + 1 - Z.log2 (den i)) * 30103 / 100000 + 2.

(** What makes [first_exponent] an upper bound, at the binary exponent [l]:
    a power of ten it leaves out is above [2 ^ l]. *)
Definition exponent_estimate (l : Z) : bool :=
  let q := l * 30103 / 100000 + 3 in
  if 0 <? l then 2 ^ l <=? 10 ^ q
  else if q <? 0 then 10 ^ (- q) <=? 2 ^ (- l)
  else true.

(** The decimal [s * 10 ^ p] of the interval that is closest to the
    magnitude (the even [s] when two are as close), if there is one. *)
Definition shortest_at (i : interval) (p : Z) : option Z :=
  let n := 10 ^ Z.max 0 (- p) in
  let d := den i * 10 ^ Z.max 0 p in
  let least :=
    if closed i then - (- (lo i * n) / d) else lo i * n / d + 1 in
  let greatest :=
    if closed i then hi i * n / d else - (- (hi i * n) / d) - 1 in
  if least <=? greatest then
    let q := mid i * n / d in
    let r := mid i * n mod d in
    let nearest :=
      if 2 * r <? d then q
      else if d <? 2 * r then q + 1
      else if Z.even q then q else q + 1 in
    Some (Z.max least (Z.min greatest nearest))
  else None.

(** The magnitude written exactly, [s * 10 ^ p]. *)
Definition exact_decimal (m : positive) (e : Z) : Z * Z :=
  if 0 <=? e then (Zpos m * 2 ^ e, 0) else (Zpos m * 5 ^ (- e), e).

(** The decimal with the fewest digits that reads back as the Number: the
    first one met going down from the largest exponent.  The search ends at
    the exponent of the exact decimal, which is in the interval. *)
Fixpoint shortest_from (steps : nat) (i : interval) (p : Z)
    (exact : Z * Z) : Z * Z :=
  match shortest_at i p with
  | Some s => (s, p)
  | None =>
      match steps with
      | O => exact
      | S steps' => shortest_from steps' i (p - 1) exact
      end
  end.

Definition shortest_decimal (m : positive) (e : Z) : Z * Z :=
  let i := rounding_interval m e in
  let p := first_exponent i in
  shortest_from (Z.to_nat (p - Z.min 0 e)) i p (exact_decimal m e).

(** The decimal [s * 10 ^ p] lies in the interval. *)
Definition in_interval (i : interval) (s p : Z) : Prop :=
  let n := 10 ^ Z.max 0 (- p) in
  let d := den i * 10 ^ Z.max 0 p in
  if closed i then lo i * n <= s * d <= hi i * n
  else lo i * n < s * d < hi i * n.

(** Hundredths in the decimal [s * 10 ^ p], ties rounded up. *)
Definition hundredths (s p : Z) : Z :=
  if -2 <=? p then s * 10 ^ (p + 2)
  else (2 * s + 10 ^ (- 2 - p)) / (2 * 10 ^ (- 2 - p)).

(** Hundredths in the magnitude [m * 2 ^ e], as the formatter prints
    them. *)
Definition cents (m : positive) (e : Z) : Z :=
  match small_integer m e with
  | Some v => v * 100
  | None => let '(s, p) := shortest_decimal m e in hundredths s p
  end.

Definition sign_prefix (neg : bool) : jsstring :=
  if neg then str "-" else [].

Definition toLocaleString (x : Number) : jsstring :=
  match x with
  | S754_nan => str "$NaN"
  | S754_infinity s => sign_prefix s ++ str "$" ++ [8734%N]
  | S754_zero s => sign_prefix s ++ str "$0.00"
  | S754_finite s m e =>
      let c := cents m e in
      sign_prefix s ++ str "$" ++ grouped (decimal (c / 100))
        ++ str "." ++ padded 2 (c mod 100)
  end.

End Currency.

(** ** String.prototype.replace with a fixed-width regular expression

    The only pattern of the source, [/(\d{2})\/(\d{2})\/(\d{4})/], is a
    sequence of capture groups and literal units of fixed width, so a match
    at a position is unique and the first match is the leftmost one. *)

Module RegExp.

Inductive atom :=
| Digits (n : nat)                  (* a capture group (\d{n}) *)
| Unit (c : char16).                (* a literal code unit *)

Definition pattern := list atom.

Fixpoint take_digits (n : nat) (s : jsstring) : option (jsstring * jsstring) :=
  match n with
  | O => Some ([], s)
  | S k =>
      match s with
      | c :: r =>
          if is_digit c then
            match take_digits k r with
            | Some (d, t) => Some (c :: d, t)
            | None => None
            end
          else None
      | [] => None
      end
  end.

(** Match [p] at the front of [s]: the captures in order, and the rest. *)
Fixpoint match_here (p : pattern) (s : jsstring)
  : option (list jsstring * jsstring) :=
  match p with
  | [] => Some ([], s)
  | Digits n :: p' =>
      match take_digits n s with
      | Some (d, r) =>
          match match_here p' r with
          | Some (caps, t) => Some (d :: caps, t)
          | None => None
          end
      | None => None
      end
  | Unit c :: p' =>
      match s with
      | c' :: r => if N.eqb c c' then match_here p' r else None
      | [] => None
      end
  end.

Inductive piece :=
| Ref (k : nat)                     (* $k *)
| Text (t : jsstring).

Definition template := list piece.

Definition expand (t : template) (caps : list jsstring) : jsstring :=
  flat_map (fun pc => match pc with
                      | Ref k => nth (k - 1) caps []
                      | Text u => u
                      end) t.

(** Replace the first (leftmost) match of [p] in [s], if there is one. *)
Fixpoint replace (p : pattern) (t : template) (s : jsstring) : jsstring :=
  match match_here p s with
  | Some (caps, rest) => expand t caps ++ rest
  | None =>
      match s with
      | [] => []
      | c :: r => c :: replace p t r
      end
  end.

End RegExp.

(** ** Outcomes of a call: a value, or a thrown error, with the state after *)

Record JSError := { name : jsstring; message : jsstring }.

Inductive Outcome (S A : Type) : Type :=
| Returned (a : A) (s : S)
| Thrown (e : JSError) (s : S).
Arguments Returned {S A} a s.
Arguments Thrown {S A} e s.

Definition M (S A : Type) : Type := S -> Outcome S A.

Definition ret {S A} (a : A) : M S A := fun s => Returned a s.

Definition throw {S A} (e : JSError) : M S A := fun s => Thrown e s.

Definition bind {S A B} (m : M S A) (k : A -> M S B) : M S B :=
  fun s => match m s with
           | Returned a s' => k a s'
           | Thrown e s' => Thrown e s'
           end.

Declare Scope js_scope.
Delimit Scope js_scope with js.
Notation "x <- m ;; k" := (bind m (fun x => k))
  (at level 61, m at next level, right associativity) : js_scope.
Notation "m ;;; k" := (bind m (fun _ => k))
  (at level 61, right associativity) : js_scope.

(** ** What the class takes from its environment *)

(** A Locator: the selector, resolved by the page at each use. *)
Record Locator := { selector : jsstring }.

Record Dialog := { dialog_message : jsstring }.

(** The part of the Page and Locator interfaces of "@playwright/test" that
    the embedded methods call, over the state [P] of the browser page. *)
Class PageHandle (P : Type) := {
  (** number of elements the selector matches in the current document *)
  matching : Locator -> P -> nat;
  locator_hover : Locator -> M P unit;
  locator_isVisible : Locator -> M P bool;
  (** [null] is [None] *)
  locator_textContent : Locator -> M P (option jsstring);
  dialog_accept : Dialog -> M P unit;
}.

(** The documented contract of [locator.isVisible()]: it does not wait, and
    a locator that matches nothing is not visible. *)
Definition isVisible_of_absent {P} `{PageHandle P} : Prop :=
  forall (l : Locator) (p : P),
    matching l p = O -> locator_isVisible l p = Returned false p.

(** Options of Intl.DateTimeFormat, with the values the source passes. *)
Inductive Style := medium.
Inductive FieldStyle := numeric | two_digit.

Record DateTimeFormatOptions := {
  dateStyle : option Style;
  timeStyle : option Style;
  year : option FieldStyle;
  month : option FieldStyle;
  day : option FieldStyle;
}.

(** The time value of a Date: milliseconds since the epoch, [None] for the
    NaN of an invalid Date. *)
Definition TimeValue := option Z.

(** What the host decides: the values Math.random() hands out, how
    [new Date(string)] reads a string, and how the en-US formatter renders a
    time value in the host's time zone. *)
Record Host := {
  random_values : nat -> Number;
  Date_parse : jsstring -> TimeValue;
  DateTimeFormat_en_US : DateTimeFormatOptions -> Z -> jsstring;
}.

(** Math.random() returns a Number that is at least 0 and less than 1. *)
Definition unit_interval (x : Number) : bool :=
  wf x && leb (of_Z 0) x && ltb x (of_Z 1).

Definition random_in_range (h : Host) : Prop :=
  forall i, unit_interval (random_values h i) = true.

(** A listener registered on the page: the closure of
    getTextAndAcceptAlert, with the cell of its captured [alertText]. *)
Inductive Listener :=
| CaptureAndAccept (alertText : nat).

(** ** The wrapper *)

Section PlaywrightWrapper.

Context {P : Type} `{PageHandle P}.
Variable host : Host.

Record World := {
  page : P;                                   (* this.page *)
  listeners : list (jsstring * Listener);     (* page.on(event, listener) *)
  cells : list jsstring;                      (* captured [let] variables *)
  clock : Z;                                  (* read by [new Date()] *)
  draws : nat;                                (* calls of Math.random() *)
}.

Definition JS := M World.

(** A call on the page handle, within the world. *)
Definition on_page {A} (m : M P A) : JS A :=
  fun w =>
    let rebuild p := {| page := p; listeners := listeners w;
                        cells := cells w; clock := clock w;
                        draws := draws w |} in
    match m (page w) with
    | Returned a p => Returned a (rebuild p)
    | Thrown e p => Thrown e (rebuild p)
    end.

(** [this.page.locator(selector)] *)
Definition page_locator (sel : jsstring) : Locator := {| selector := sel |}.

(** [this.page.on(event, listener)]: the listener is appended to the
    page's listeners; it is not called. *)
Definition page_on (event : jsstring) (l : Listener) : JS unit :=
  fun w => Returned tt {| page := page w;
                          listeners := listeners w ++ [(event, l)];
                          cells := cells w; clock := clock w;
                          draws := draws w |}.

(** [let x = v] for a variable that a closure captures. *)
Definition let_cell (v : jsstring) : JS nat :=
  fun w => Returned (length (cells w))
             {| page := page w; listeners := listeners w;
                cells := cells w ++ [v]; clock := clock w;
                draws := draws w |}.

Definition read_cell (c : nat) : JS jsstring :=
  fun w => Returned (nth c (cells w) []) w.

Fixpoint update {A} (l : list A) (i : nat) (v : A) : list A :=
  match l, i with
  | [], _ => []
  | _ :: r, O => v :: r
  | x :: r, S j => x :: update r j v
  end.

Definition write_cell (c : nat) (v : jsstring) : JS unit :=
  fun w => Returned tt {| page := page w; listeners := listeners w;
                          cells := update (cells w) c v; clock := clock w;
                          draws := draws w |}.

(** The body of a listener, run when the page emits a dialog. *)
Definition run_listener (l : Listener) (dialog : Dialog) : JS unit :=
  match l with
  | CaptureAndAccept alertText =>
      (write_cell alertText (dialog_message dialog) ;;;
       on_page (dialog_accept dialog))%js
  end.

(** A call that is not awaited, then [k]: a rejection of the call does not
    keep [k] from running, and comes out once [k] is done (an unhandled
    rejection; the first one, when [k] has one too). *)
Definition unawaited (m k : JS unit) : JS unit :=
  fun w =>
    match m w with
    | Returned _ w' => k w'
    | Thrown e w' =>
        match k w' with
        | Returned _ w'' | Thrown _ w'' => Thrown e w''
        end
    end.

(** The page emits ['dialog']: its listeners run in registration order.
    They are async functions and the emitter does not await them, so each
    of them runs whatever becomes of the others. *)
Fixpoint emit (ls : list (jsstring * Listener)) (dialog : Dialog) : JS unit :=
  match ls with
  | [] => ret tt
  | (event, l) :: r =>
      if JSString.eqb event (str "dialog")
      then unawaited (run_listener l dialog) (emit r dialog)
      else emit r dialog
  end.

Definition dialog_appears (dialog : Dialog) : JS unit :=
  fun w => emit (listeners w) dialog w.

(** The world after [n] more calls of Math.random(). *)
Definition after_draws (n : nat) (w : World) : World :=
  {| page := page w; listeners := listeners w; cells := cells w;
     clock := clock w; draws := n + draws w |}.

(** [new Date()] *)
Definition Date_now : JS TimeValue := fun w => Returned (Some (clock w)) w.

(** [Math.random()] *)
Definition Math_random : JS Number :=
  fun w => Returned (random_values host (draws w))
             {| page := page w; listeners := listeners w;
                cells := cells w; clock := clock w;
                draws := S (draws w) |}.

(** [new Intl.DateTimeFormat('en-US', options).format(date)] *)
Definition DateTimeFormat_format {S} (options : DateTimeFormatOptions)
    (date : TimeValue) : M S jsstring :=
  match date with
  | None => throw {| name := str "RangeError";
                     message := str "Invalid time value" |}
  | Some t => ret (DateTimeFormat_en_US host options t)
  end.

(** *** Methods of the class *)

Definition hover (locator : jsstring) : JS unit :=
  let element := page_locator locator in
  on_page (locator_hover element).

Definition moveToElement (locator : jsstring) : JS unit :=
  let element := page_locator locator in
  on_page (locator_hover element).

Definition isElementAvailable (locator : jsstring) : JS bool :=
  let element := page_locator locator in
  on_page (locator_isVisible element).

Definition getText (locator : jsstring) : JS (option jsstring) :=
  let element := page_locator locator in
  on_page (locator_textContent element).

(** [text1 === text2] on values that are strings or null *)
Definition strict_equal (t1 t2 : option jsstring) : bool :=
  match t1, t2 with
  | Some s1, Some s2 => JSString.eqb s1 s2
  | None, None => true
  | _, _ => false
  end.

Definition compareText (locator1 locator2 : jsstring) : JS bool :=
  (text1 <- getText locator1 ;;
   text2 <- getText locator2 ;;
   ret (strict_equal text1 text2))%js.

Definition getCurrentDate (format : jsstring) : JS jsstring :=
  (currentDate <- Date_now ;;
   DateTimeFormat_format
     {| dateStyle := Some medium; timeStyle := None;
        year := None; month := None; day := None |} currentDate)%js.

Definition getCurrentTime (format : jsstring) : JS jsstring :=
  (currentDate <- Date_now ;;
   DateTimeFormat_format
     {| dateStyle := None; timeStyle := Some medium;
        year := None; month := None; day := None |} currentDate)%js.

Definition getTextAndAcceptAlert : JS jsstring :=
  (alertText <- let_cell [] ;;
   page_on (str "dialog") (CaptureAndAccept alertText) ;;;
   read_cell alertText)%js.

Definition getRandomChar (characters : jsstring) : JS jsstring :=
  (r <- Math_random ;;
   let randomIndex := floor (mul r (str_length characters)) in
   ret (charAt characters randomIndex))%js.

(** The loop [for (let i = 0; i < length; i++) randomValue += ...], with
    [remaining] iterations left.  [length] is a natural number: [i] starts
    at 0 and goes up by 1, so the body runs [length] times. *)
Fixpoint random_loop (remaining : nat) (characters randomValue : jsstring)
  : JS jsstring :=
  match remaining with
  | O => ret randomValue
  | S k =>
      (c <- getRandomChar characters ;;
       random_loop k characters (randomValue ++ c))%js
  end.

Definition generateRandomValue (length : nat) (type : jsstring)
  : JS jsstring :=
  let characters :=
    if JSString.eqb type (str "numeric") then str "0123456789"
    else if JSString.eqb type (str "alphanumeric") then
      str "ABCDEFGHIJKLMNOPQRSTUVWXYZabcdefghijklmnopqrstuvwxyz0123456789"
    else if JSString.eqb type (str "characters") then
      str "!@#$%^&*()_-+=<>?"
    else [] in
  random_loop length characters [].

(** [/(\d{2})\/(\d{2})\/(\d{4})/] and ['$2/$1/$3'] *)
Definition date_pattern : RegExp.pattern :=
  [RegExp.Digits 2; RegExp.Unit 47; RegExp.Digits 2; RegExp.Unit 47;
   RegExp.Digits 4]%N.

Definition swapped : RegExp.template :=
  [RegExp.Ref 2; RegExp.Text (str "/"); RegExp.Ref 1;
   RegExp.Text (str "/"); RegExp.Ref 3].

Definition year_month_day : DateTimeFormatOptions :=
  {| dateStyle := None; timeStyle := None;
     year := Some numeric; month := Some two_digit;
     day := Some two_digit |}.

Definition changeDateFormat (inputDate inputFormat outputFormat : jsstring)
  : JS jsstring :=
  let date := Date_parse host inputDate in
  let options := year_month_day in
  let formatter := DateTimeFormat_format options in
  (formattedDate <- formatter date ;;
   ret (RegExp.replace date_pattern swapped formattedDate))%js.

(** [new Error('Invalid amount')] *)
Definition invalid_amount : JSError :=
  {| name := str "Error"; message := str "Invalid amount" |}.

Definition convertToMoneyFormat (amount : jsstring) : JS jsstring :=
  let parsedAmount := parseFloat amount in
  if isNaN parsedAmount then throw invalid_amount
  else ret (Currency.toLocaleString parsedAmount).

End PlaywrightWrapper.

Arguments World : clear implicits.
Arguments JS : clear implicits.

(** ** A reference environment

    A host in the UTC time zone and a page over a small document, used to
    run the wrapper on concrete inputs. *)

Module Reference.

(** *** The host *)

(** Days since the epoch of a proleptic Gregorian date, and back. *)
Definition days_from_civil (y m d : Z) : Z :=
  let y' := if m <=? 2 then y - 1 else y in
  let era := y' / 400 in
  let yoe := y' - era * 400 in
  let doy := (153 * (if 2 <? m then m - 3 else m + 9) + 2) / 5 + d - 1 in
  let doe := yoe * 365 + yoe / 4 - yoe / 100 + doy in
  era * 146097 + doe - 719468.

Definition civil_from_days (days : Z) : Z * Z * Z :=
  let z := days + 719468 in
  let era := z / 146097 in
  let doe := z - era * 146097 in
  let yoe := (doe - doe / 1460 + doe / 36524 - doe / 146096) / 365 in
  let doy := doe - (365 * yoe + yoe / 4 - yoe / 100) in
  let mp := (5 * doy + 2) / 153 in
  let d := doy - (153 * mp + 2) / 5 + 1 in
  let m := if mp <? 10 then mp + 3 else mp - 9 in
  ((if m <=? 2 then yoe + era * 400 + 1 else yoe + era * 400), m, d).

Definition ms_per_day : Z := 86400000.

(** The date-only form YYYY-MM-DD of the Date Time String Format, read as
    UTC midnight; any other string gives an invalid Date. *)
Definition parse_date (s : jsstring) : TimeValue :=
  match RegExp.match_here
          [RegExp.Digits 4; RegExp.Unit 45; RegExp.Digits 2;
           RegExp.Unit 45; RegExp.Digits 2]%N s with
  | Some ([ys; ms; ds], []) =>
      let y := digits_value ys in
      let m := digits_value ms in
      let d := digits_value ds in
      let days := days_from_civil y m d in
      if (1 <=? m) && (m <=? 12) && (1 <=? d)
         && (let '(y', m', d') := civil_from_days days in
             (y' =? y) && (m' =? m) && (d' =? d))
      then Some (days * ms_per_day)
      else None
  | _ => None
  end.

Definition month_name (m : Z) : jsstring :=
  nth (Z.to_nat (m - 1))
    (map str ["Jan"; "Feb"; "Mar"; "Apr"; "May"; "Jun";
              "Jul"; "Aug"; "Sep"; "Oct"; "Nov"; "Dec"]%string) [].

Definition field (f : FieldStyle) (n : Z) : jsstring :=
  match f with
  | numeric => Currency.decimal n
  | two_digit => Currency.padded 2 (n mod 100)
  end.

(** The year as en-US shows it: counted within its era. *)
Definition era_year (y : Z) : Z := if y <=? 0 then 1 - y else y.

Fixpoint join (sep : jsstring) (parts : list jsstring) : jsstring :=
  match parts with
  | [] => []
  | [x] => x
  | x :: r => x ++ sep ++ join sep r
  end.

Definition of_option {A} (o : option A) : list A :=
  match o with Some a => [a] | None => [] end.

Definition format_en_US (o : DateTimeFormatOptions) (t : Z) : jsstring :=
  let '(y, m, d) := civil_from_days (t / ms_per_day) in
  let secs := (t mod ms_per_day) / 1000 in
  let h := secs / 3600 in
  let date_medium :=
    month_name m ++ str " " ++ Currency.decimal d ++ str ", "
      ++ Currency.decimal (era_year y) in
  let time_medium :=
    Currency.decimal (if h mod 12 =? 0 then 12 else h mod 12) ++ str ":"
      ++ Currency.padded 2 (secs / 60 mod 60) ++ str ":"
      ++ Currency.padded 2 (secs mod 60) ++ [8239%N]
      ++ (if h <? 12 then str "AM" else str "PM") in
  match dateStyle o, timeStyle o with
  | Some medium, Some medium => date_medium ++ str ", " ++ time_medium
  | Some medium, None => date_medium
  | None, Some medium => time_medium
  | None, None =>
      match month o, day o, year o with
      | None, None, None =>
          join (str "/") [field numeric m; field numeric d;
                          field numeric (era_year y)]
      | fm, fd, fy =>
          join (str "/")
            (of_option (option_map (fun f => field f m) fm)
             ++ of_option (option_map (fun f => field f d) fd)
             ++ of_option (option_map (fun f => field f (era_year y)) fy))
      end
  end.

(** Values in the unit interval, handed out in turn. *)
Definition random_cycle : list Number :=
  [ S754_zero false;
    S754_finite false 4503599627370496 (-53);        (* 0.5 *)
    S754_finite false 9007199254740991 (-53);        (* 1 - 2^-53 *)
    S754_finite false 7205759403792794 (-56);        (* 0.1 *)
    S754_finite false 1 (-1074) ].                   (* 2^-1074 *)

Definition host : Host :=
  {| random_values := fun i => nth (i mod 5) random_cycle (S754_zero false);
     Date_parse := parse_date;
     DateTimeFormat_en_US := format_en_US |}.

(** *** The page *)

Record Element := {
  matched_by : jsstring;            (* the selector that finds the element *)
  visible : bool;
  text : option jsstring;
}.

Record Document := {
  elements : list Element;
  pointer_over : option Element;
  accepted : list Dialog;
}.

Definition resolve (l : Locator) (p : Document) : list Element :=
  filter (fun e => JSString.eqb (matched_by e) (selector l)) (elements p).

Definition strict_mode_violation : JSError :=
  {| name := str "Error"; message := str "strict mode violation" |}.

Definition timeout_error : JSError :=
  {| name := str "TimeoutError"; message := str "Timeout exceeded" |}.

Definition hover_element (l : Locator) : M Document unit :=
  fun p =>
    match resolve l p with
    | [e] =>
        if visible e
        then Returned tt {| elements := elements p; pointer_over := Some e;
                            accepted := accepted p |}
        else Thrown timeout_error p
    | [] => Thrown timeout_error p
    | _ => Thrown strict_mode_violation p
    end.

Definition is_visible (l : Locator) : M Document bool :=
  fun p =>
    match resolve l p with
    | [e] => Returned (visible e) p
    | [] => Returned false p
    | _ => Thrown strict_mode_violation p
    end.

Definition text_content (l : Locator) : M Document (option jsstring) :=
  fun p =>
    match resolve l p with
    | [e] => Returned (text e) p
    | [] => Thrown timeout_error p
    | _ => Thrown strict_mode_violation p
    end.

Definition accept (d : Dialog) : M Document unit :=
  fun p => Returned tt {| elements := elements p;
                          pointer_over := pointer_over p;
                          accepted := accepted p ++ [d] |}.

#[export] Instance document_page : PageHandle Document :=
  {| matching := fun l p => length (resolve l p);
     locator_hover := hover_element;
     locator_isVisible := is_visible;
     locator_textContent := text_content;
     dialog_accept := accept |}.

Definition sample_document : Document :=
  {| elements :=
       [ {| matched_by := str "#title"; visible := true;
            text := Some (str "Welcome") |};
         {| matched_by := str "#heading"; visible := true;
            text := Some (str "Welcome") |};
         {| matched_by := str "#footer"; visible := true;
            text := Some (str "welcome ") |};
         {| matched_by := str "#empty"; visible := false;
            text := Some [] |} ];
     pointer_over := None;
     accepted := [] |}.

Definition sample_world : World Document :=
  {| page := sample_document; listeners := []; cells := [];
     clock := 1710510125000; draws := 0 |}.

End Reference.
Import Reference.

(** ** Vocabulary of the proofs *)

Module RoundingInv.

(** What [shr] has dropped from [N] after [k] one-bit shifts: the
    remainder [rem], located against half a unit by the round and sticky
    bits. *)
Definition shr_inv (N k : Z) (r : shr_record) : Prop :=
  0 <= shr_m r /\
  exists rem, N = shr_m r * 2 ^ k + rem /\ 0 <= rem < 2 ^ k /\
    match shr_r r, shr_s r with
    | false, false => rem = 0
    | false, true => 0 < 2 * rem < 2 ^ k
    | true, false => 2 * rem = 2 ^ k
    | true, true => 2 ^ k < 2 * rem
    end.

End RoundingInv.
Import RoundingInv.

(** Character classes of the generated values. *)
Definition is_alphanumeric (c : char16) : bool :=
  (N.leb 65 c && N.leb c 90) || (N.leb 97 c && N.leb c 122) || is_digit c.

Definition is_special (c : char16) : bool :=
  existsb (N.eqb c) (str "!@#$%^&*()_-+=<>?").

(** A string without any decimal digit. *)
Definition no_digit (t : jsstring) : Prop :=
  Forall (fun c => is_digit c = false) t.

(** ** Methods of the class that act on the page

    The further part of the Page and Locator interfaces these methods
    call. *)

Class PageActions (P : Type) := {
  page_waitForTimeout : Z -> M P unit;
  page_waitForSelector : jsstring -> M P unit;
  keyboard_press : jsstring -> M P unit;
  (** [locator.waitFor({ state: "visible" })] *)
  locator_waitFor_visible : Locator -> M P unit;
  locator_click : Locator -> M P unit;
  locator_type : Locator -> jsstring -> M P unit;
  locator_press : Locator -> jsstring -> M P unit;
}.

Section PlaywrightWrapperActions.

Context {P : Type} `{PageHandle P} `{PageActions P}.

Definition waitAndClick (locator : jsstring) : JS P unit :=
  let element := page_locator locator in
  (on_page (locator_waitFor_visible element) ;;;
   on_page (locator_click element))%js.

Definition selectAutoSuggestion (locator suggestionText : jsstring)
  : JS P unit :=
  let element := page_locator locator in
  (on_page (locator_type element suggestionText) ;;;
   on_page (page_waitForSelector (str "text=" ++ suggestionText)) ;;;
   on_page (locator_press element (str "Enter")))%js.

Definition acceptAlert : JS P unit :=
  (on_page (page_waitForTimeout 500) ;;;
   let alert := page_locator (str "text=OK") in
   visible <- on_page (locator_isVisible alert) ;;
   if visible then on_page (locator_click alert)
   else on_page (keyboard_press (str "Enter")))%js.

Definition dismissAlert : JS P unit :=
  (on_page (page_waitForTimeout 500) ;;;
   let alert := page_locator (str "text=Cancel") in
   visible <- on_page (locator_isVisible alert) ;;
   if visible then on_page (locator_click alert)
   else on_page (keyboard_press (str "Escape")))%js.

(** The world with another page state. *)
Definition with_page (w : World P) (p : P) : World P :=
  {| page := p; listeners := listeners w; cells := cells w;
     clock := clock w; draws := draws w |}.

End PlaywrightWrapperActions.

(** A reference page that keeps a record of what was done to it; a dialog
    can be accepted once. *)

Module Session.

Inductive Action :=
| Waited (ms : Z)
| WaitedFor (sel : jsstring)
| Clicked (sel : jsstring)
| Typed (sel text : jsstring)
| Pressed (sel key : jsstring)
| KeyPressed (key : jsstring).

Record Session := {
  document : Document;
  actions : list Action;
}.

Definition lift {A} (m : M Document A) : M Session A :=
  fun s => match m (document s) with
           | Returned a d => Returned a {| document := d; actions := actions s |}
           | Thrown e d => Thrown e {| document := d; actions := actions s |}
           end.

Definition record (a : Action) : M Session unit :=
  fun s => Returned tt {| document := document s;
                          actions := actions s ++ [a] |}.

(** The action goes through when the locator finds one visible element. *)
Definition act_on (l : Locator) (a : Action) : M Session unit :=
  fun s =>
    match resolve l (document s) with
    | [e] => if visible e then record a s else Thrown timeout_error s
    | [] => Thrown timeout_error s
    | _ => Thrown strict_mode_violation s
    end.

Definition already_handled : JSError :=
  {| name := str "Error";
     message := str "Cannot accept dialog which is already handled!" |}.

Definition accept_once (d : Dialog) : M Session unit :=
  fun s =>
    if existsb (fun d' => JSString.eqb (dialog_message d') (dialog_message d))
         (accepted (document s))
    then Thrown already_handled s
    else lift (accept d) s.

#[export] Instance session_page : PageHandle Session :=
  {| matching := fun l s => length (resolve l (document s));
     locator_hover := fun l => lift (hover_element l);
     locator_isVisible := fun l => lift (is_visible l);
     locator_textContent := fun l => lift (text_content l);
     dialog_accept := accept_once |}.

#[export] Instance session_actions : PageActions Session :=
  {| page_waitForTimeout := fun ms => record (Waited ms);
     page_waitForSelector :=
       fun sel => act_on {| selector := sel |} (WaitedFor sel);
     keyboard_press := fun key => record (KeyPressed key);
     locator_waitFor_visible := fun l => act_on l (WaitedFor (selector l));
     locator_click := fun l => act_on l (Clicked (selector l));
     locator_type := fun l text => act_on l (Typed (selector l) text);
     locator_press := fun l key => act_on l (Pressed (selector l) key) |}.

Definition sample_session : World Session :=
  {| page := {| document := sample_document; actions := [] |};
     listeners := []; cells := []; clock := 1710510125000; draws := 0 |}.

End Session.
Import Session.

(** What parseFloat takes for the start of a number: after white space and
    one optional sign, a digit, a point and a digit, or "Infinity". *)
Definition numeric_start (s : jsstring) : bool :=
  let r := snd (parse_sign (trim_start s)) in
  starts_with (str "Infinity") r ||
  match r with
  | c :: r' =>
      is_digit c ||
      (N.eqb c 46 && match r' with d :: _ => is_digit d | [] => false end)
  | [] => false
  end.

Definition all_whitespace (s : jsstring) : Prop :=
  Forall (fun c => is_whitespace c = true) s.

(** Both units are digits, or they are the same unit. *)
Definition same_class (c c' : char16) : Prop :=
  is_digit c = is_digit c' /\ (is_digit c = false -> c = c').

(** ** Rounding facts about the binary64 operations used by the code *)

Module Rounding.

Lemma shr_1_inv N k r :
  0 <= k -> shr_inv N k r -> shr_inv N (k + 1) (shr_1 r).
Proof.
  intros Hk [Hm [rem [HN [Hrem Hloc]]]].
  assert (HP : 0 < 2 ^ k) by (apply Z.pow_pos_nonneg; lia).
  assert (HS : 2 ^ (k + 1) = 2 * 2 ^ k) by (rewrite Z.pow_add_r; lia).
  unfold shr_inv; rewrite HS.
  destruct r as [m r s]; cbn [shr_m shr_r shr_s] in *.
  destruct m as [|p|p]; [| |lia].
  - split; [destruct r, s; cbv; discriminate|].
    exists rem.
    destruct r, s; cbn [shr_1 shr_m shr_r shr_s orb] in *; lia.
  - destruct p as [p|p|].
    + split; [destruct r, s; cbv; discriminate|].
      exists (2 ^ k + rem).
      change (Zpos p~1) with (2 * Zpos p + 1) in HN.
      destruct r, s; cbn [shr_1 shr_m shr_r shr_s orb] in *; lia.
    + split; [destruct r, s; cbv; discriminate|].
      exists rem.
      change (Zpos p~0) with (2 * Zpos p) in HN.
      destruct r, s; cbn [shr_1 shr_m shr_r shr_s orb] in *; lia.
    + split; [destruct r, s; cbv; discriminate|].
      exists (2 ^ k + rem).
      destruct r, s; cbn [shr_1 shr_m shr_r shr_s orb] in *; lia.
Qed.

Lemma iter_shr_inv N p : forall k r,
  0 <= k -> shr_inv N k r -> shr_inv N (k + Zpos p) (iter_pos shr_1 p r).
Proof.
  induction p as [p IH|p IH|]; intros k r Hk Hr; simpl.
  - change (Zpos p~1) with (2 * Zpos p + 1).
    replace (k + (2 * Zpos p + 1)) with (k + 1 + Zpos p + Zpos p) by lia.
    apply IH; [lia|]. apply IH; [lia|]. now apply shr_1_inv.
  - change (Zpos p~0) with (2 * Zpos p).
    replace (k + 2 * Zpos p) with (k + Zpos p + Zpos p) by lia.
    apply IH; [lia|]. now apply IH.
  - now apply shr_1_inv.
Qed.

Lemma shr_inv_exact N : 0 <= N -> shr_inv N 0 (shr_record_of_loc N loc_Exact).
Proof.
  intros HN. split; [exact HN|]. exists 0. simpl. lia.
Qed.

(** [digits2_pos] is the bit length. *)
Lemma digits2_bounds p :
  2 ^ (Zpos (digits2_pos p) - 1) <= Zpos p < 2 ^ Zpos (digits2_pos p).
Proof.
  induction p as [p IH|p IH|]; simpl digits2_pos.
  - rewrite Pos2Z.inj_succ.
    change (Zpos p~1) with (2 * Zpos p + 1).
    replace (Z.succ (Zpos (digits2_pos p)) - 1)
      with (Z.succ (Zpos (digits2_pos p) - 1)) by lia.
    rewrite !Z.pow_succ_r by lia.
    generalize dependent (2 ^ (Zpos (digits2_pos p) - 1)).
    generalize dependent (2 ^ (Zpos (digits2_pos p))). intros; lia.
  - rewrite Pos2Z.inj_succ.
    change (Zpos p~0) with (2 * Zpos p).
    replace (Z.succ (Zpos (digits2_pos p)) - 1)
      with (Z.succ (Zpos (digits2_pos p) - 1)) by lia.
    rewrite !Z.pow_succ_r by lia.
    generalize dependent (2 ^ (Zpos (digits2_pos p) - 1)).
    generalize dependent (2 ^ (Zpos (digits2_pos p))). intros; lia.
  - cbv. split; congruence.
Qed.


Lemma shr_fexp_spec m e :
  0 <= m ->
  forall r e', shr_fexp prec emax m e loc_Exact = (r, e') ->
  shr_inv m (e' - e) r /\
  e' = Z.max e (fexp prec emax (Zdigits2 m + e)).
Proof.
  intros Hm r e'. unfold shr_fexp, shr.
  destruct (fexp prec emax (Zdigits2 m + e) - e) as [|p|p] eqn:Hn;
    intros [= <- <-].
  - replace (e - e) with 0 by lia. split; [now apply shr_inv_exact|lia].
  - replace (e + Zpos p - e) with (0 + Zpos p) by lia.
    split; [apply iter_shr_inv; [lia|now apply shr_inv_exact]|lia].
  - replace (e - e) with 0 by lia. split; [now apply shr_inv_exact|lia].
Qed.

Lemma round_nearest_even_spec N k r :
  0 <= k -> shr_inv N k r ->
  let M := round_nearest_even (shr_m r) (loc_of_shr_record r) in
  0 <= M /\ 2 * M * 2 ^ k <= 2 * N + 2 ^ k /\ (k = 0 -> M = N).
Proof.
  intros Hk [Hm [rem [HN [Hrem Hloc]]]].
  assert (HP : 0 < 2 ^ k) by (apply Z.pow_pos_nonneg; lia).
  destruct r as [q r s]; cbn [shr_m shr_r shr_s] in *.
  assert (H0 : k = 0 -> 2 ^ k = 1) by (intros ->; reflexivity).
  destruct r, s; cbn [loc_of_shr_record round_nearest_even]; cbv zeta.
  - nia.
  - destruct (Z.even q); nia.
  - nia.
  - nia.
Qed.

Lemma small_of_Z n :
  0 <= n < 64 -> ToIntegerOrInfinity (of_Z n) = Int n.
Proof.
  intros Hn.
  assert (H : forall k : nat, (k < 64)%nat ->
            ToIntegerOrInfinity (of_Z (Z.of_nat k)) = Int (Z.of_nat k)).
  { intros k Hk. do 64 (destruct k as [|k]; [vm_compute; reflexivity|]). lia. }
  rewrite <- (Z2Nat.id n) by lia. apply H. lia.
Qed.

Lemma pow2_split a b : 0 <= a -> 0 <= b -> 2 ^ (a + b) = 2 ^ a * 2 ^ b.
Proof. intros; apply Z.pow_add_r; lia. Qed.

Lemma pow2_pos a : 0 <= a -> 0 < 2 ^ a.
Proof. intros; apply Z.pow_pos_nonneg; lia. Qed.

Lemma fexp_eq e : fexp prec emax e = Z.max (e - 53) (-1074).
Proof. reflexivity. Qed.

Lemma random_index_bound (N ex L : Z) :
  0 < N -> ex <= -53 -> 1 <= L <= 64 ->
  N * 2 ^ 53 <= L * (2 ^ 53 - 1) * 2 ^ (- ex) ->
  exists p,
    ToIntegerOrInfinity
      (floor (binary_round_aux prec emax false N ex loc_Exact)) = Int p /\
    0 <= p < L.
Proof.
  intros HN Hex HL HB.
  unfold binary_round_aux.
  destruct (shr_fexp prec emax N ex loc_Exact) as [r1 e1] eqn:H1.
  apply shr_fexp_spec in H1 as [Hinv1 He1]; [|lia].
  assert (Hk : 0 <= e1 - ex) by lia.
  destruct (round_nearest_even_spec _ _ _ Hk Hinv1) as (HM0 & HMb & HMk).
  clear Hinv1.
  set (M := round_nearest_even (shr_m r1) (loc_of_shr_record r1)) in *.
  destruct (shr_fexp prec emax M e1 loc_Exact) as [r2 e2] eqn:H2.
  apply shr_fexp_spec in H2 as [Hinv2 He2]; [|lia].
  destruct Hinv2 as [Hmf [rem2 [HM2 [Hrem2 _]]]].
  destruct (shr_m r2) as [|mf|mf] eqn:Hmf'; [| |lia].
  { exists 0. split; [reflexivity|lia]. }
  set (E := 2 ^ (- ex)) in *.
  set (K := 2 ^ (e1 - ex)) in *.
  set (K2 := 2 ^ (e2 - e1)) in *.
  assert (HE : 0 < E) by (apply pow2_pos; lia).
  assert (HK : 0 < K) by (apply pow2_pos; lia).
  assert (HK2 : 0 < K2) by (apply pow2_pos; lia).
  assert (H53 : 2 ^ 53 = 9007199254740992) by reflexivity.
  rewrite H53 in HB.
  assert (HLE : 0 < L * E) by (apply Z.mul_pos_pos; lia).
  assert (HLE64 : L * E <= 64 * E) by (apply Z.mul_le_mono_nonneg_r; lia).
  destruct N as [|n|n]; [lia| |lia].
  cbn [Zdigits2] in He1. rewrite fexp_eq in He1.
  pose proof (digits2_bounds n) as Hd.
  set (d := Zpos (digits2_pos n)) in *.
  assert (Hdpos : 1 <= d) by (unfold d; lia).
  (* the product is below 64, so its exponent is small *)
  assert (F3 : d + ex <= 6).
  { assert (H : 2 ^ (d - 1) < 2 ^ (6 + - ex)).
    { rewrite pow2_split by lia. fold E. change (2 ^ 6) with 64. lia. }
    apply Z.pow_lt_mono_r_iff in H; lia. }
  (* the rounded mantissa stays below L *)
  assert (F5 : M * K < L * E).
  { destruct (Z.eq_dec e1 ex) as [Heq|Hne].
    - rewrite HMk by lia.
      assert (HK1 : K = 1) by (unfold K; rewrite Heq, Z.sub_diag; reflexivity).
      rewrite HK1. lia.
    - destruct (Z_le_gt_dec (-1074) (d + ex - 53)) as [Hn|Hs].
      + assert (He1' : e1 = d + ex - 53) by lia.
        assert (HdK : 2 ^ (d - 1) = 4503599627370496 * K).
        { unfold K. replace (d - 1) with (52 + (e1 - ex)) by lia.
          now rewrite pow2_split by lia. }
        lia.
      + assert (He1' : e1 = -1074) by lia.
        assert (HdK : 2 ^ d <= 4503599627370496 * K).
        { unfold K. change 4503599627370496 with (2 ^ 52).
          rewrite <- pow2_split by lia.
          apply Z.pow_le_mono_r; lia. }
        assert (HEK : E = 2 ^ 1074 * K).
        { unfold E, K. rewrite <- pow2_split by lia. f_equal; lia. }
        assert (H2l : 2 ^ 54 < 2 ^ 1074) by (apply Z.pow_lt_mono_r; lia).
        change (2 ^ 54) with 18014398509481984 in H2l.
        assert (HKK : 18014398509481984 * K <= 2 ^ 1074 * K)
          by (apply Z.mul_le_mono_nonneg_r; lia).
        assert (HLK : 1 * (2 ^ 1074 * K) <= L * (2 ^ 1074 * K))
          by (apply Z.mul_le_mono_nonneg_r; lia).
        rewrite HEK.
        generalize dependent (2 ^ 1074 * K). intros; lia. }
  assert (HmK2 : 0 < Zpos mf * K2) by (apply Z.mul_pos_pos; lia).
  assert (HMpos : 0 < M) by lia.
  destruct M as [|pm|pm] eqn:HMeq; [lia| |lia].
  cbn [Zdigits2] in He2. rewrite fexp_eq in He2.
  pose proof (digits2_bounds pm) as HdM.
  set (dM := Zpos (digits2_pos pm)) in *.
  assert (F7 : dM + e1 <= 6).
  { assert (H : 2 ^ (dM - 1 + (e1 - ex)) < 2 ^ (6 + - ex)).
    { rewrite !pow2_split by (unfold dM; lia).
      fold E K. change (2 ^ 6) with 64.
      assert (2 ^ (dM - 1) * K <= Zpos pm * K)
        by (apply Z.mul_le_mono_nonneg_r; lia).
      lia. }
    apply Z.pow_lt_mono_r_iff in H; lia. }
  assert (He2neg : e2 < 0) by lia.
  replace (e2 <=? emax - prec) with true
    by (symmetry; apply Z.leb_le; unfold emax, prec; lia).
  unfold floor.
  replace (0 <=? e2) with false by (symmetry; apply Z.leb_gt; lia).
  cbn [cond_Zopp]. rewrite Z.shiftr_div_pow2 by lia.
  set (F := 2 ^ (- e2)).
  assert (HF : 0 < F) by (apply pow2_pos; lia).
  assert (HEF : E = F * (K2 * K)).
  { unfold E, K, K2, F. rewrite <- !pow2_split by lia. f_equal; lia. }
  assert (Hn : 0 <= Zpos mf / F < L).
  { split; [apply Z.div_pos; lia|].
    apply Z.div_lt_upper_bound; [lia|].
    apply (Z.mul_lt_mono_pos_r (K2 * K)); [apply Z.mul_pos_pos; lia|].
    assert (Zpos mf * K2 * K <= Zpos pm * K)
      by (apply Z.mul_le_mono_nonneg_r; lia).
    rewrite HEF in F5.
    replace (F * L * (K2 * K)) with (L * (F * (K2 * K))) by ring.
    lia. }
  destruct (Zpos mf / F =? 0) eqn:Hz.
  - exists 0. split; [reflexivity|lia].
  - exists (Zpos mf / F). split; [apply small_of_Z; lia|lia].
Qed.

End Rounding.
Import Rounding.

(** ** The index drawn by getRandomChar *)

Module RandomChar.

Lemma of_Z_small L :
  1 <= L <= 64 ->
  exists mL eL, of_Z L = S754_finite false mL eL /\ eL <= 0 /\
                Zpos mL = L * 2 ^ (- eL).
Proof.
  intros HL.
  assert (H : forall k : nat, (k < 64)%nat ->
            exists mL eL, of_Z (Z.of_nat (S k)) = S754_finite false mL eL /\
                          eL <= 0 /\
                          Zpos mL = Z.of_nat (S k) * 2 ^ (- eL)).
  { intros k Hk.
    do 64 (destruct k as [|k];
           [eexists; eexists; split; [vm_compute; reflexivity|];
            split; [discriminate|vm_compute; reflexivity]|]).
    lia. }
  destruct (H (Z.to_nat (L - 1))) as (mL & eL & H1 & H2 & H3); [lia|].
  replace (Z.of_nat (S (Z.to_nat (L - 1)))) with L in * by lia.
  now exists mL, eL.
Qed.

Lemma of_Z_0 : of_Z 0 = S754_zero false.
Proof. reflexivity. Qed.

Lemma of_Z_1 : of_Z 1 = S754_finite false 4503599627370496 (-52).
Proof. vm_compute. reflexivity. Qed.

Lemma pow2_52 : 2 ^ (53 - 1) = 4503599627370496.
Proof. vm_compute. reflexivity. Qed.

Lemma compare_cont_Eq_lt m q :
  Pos.compare_cont Eq m q = Lt -> Zpos m < Zpos q.
Proof. intros Hlt. apply Pos2Z.pos_lt_pos. exact Hlt. Qed.

Lemma unit_interval_cases r :
  unit_interval r = true ->
  (exists s, r = S754_zero s) \/
  (exists m e, r = S754_finite false m e /\ e <= -53 /\ Zpos m < 2 ^ 53).
Proof.
  unfold unit_interval. rewrite of_Z_0, of_Z_1. intros Hr.
  apply andb_prop in Hr as [Hr Hlt]. apply andb_prop in Hr as [Hwf Hle].
  destruct r as [s|s| |s m e].
  - left. now exists s.
  - destruct s; discriminate.
  - discriminate.
  - right. destruct s; [discriminate|].
    exists m, e. split; [reflexivity|].
    unfold wf, valid_binary, bounded, canonical_mantissa in Hwf.
    apply andb_prop in Hwf as [Hc _]. apply Z.eqb_eq in Hc.
    rewrite fexp_eq in Hc.
    pose proof (digits2_bounds m) as Hd.
    set (d := Zpos (digits2_pos m)) in *.
    unfold ltb, SFltb in Hlt.
    cbn [SFcompare] in Hlt.
    destruct (Z.compare_spec e (-52)) as [He|He|He]; try discriminate.
    + (* e = -52 forces 53 digits, so the mantissa is not below 2^52 *)
      exfalso. assert (Hd53 : d = 53) by lia.
      rewrite Hd53 in Hd.
      destruct (Pos.compare_cont Eq m 4503599627370496) eqn:Hc';
        try discriminate.
      apply compare_cont_Eq_lt in Hc'.
      rewrite pow2_52 in Hd. lia.
    + split; [lia|].
      assert (d <= 53) by lia.
      apply Z.lt_le_trans with (2 ^ d); [lia|].
      apply Z.pow_le_mono_r; lia.
Qed.

Lemma charAt_index s p :
  0 <= p < Z.of_nat (length s) ->
  forall x, ToIntegerOrInfinity x = Int p ->
  exists c, charAt s x = [c] /\ In c s.
Proof.
  intros Hp x Hx. unfold charAt. rewrite Hx.
  replace (p <? 0) with false by (symmetry; apply Z.ltb_ge; lia).
  replace (Z.of_nat (length s) <=? p) with false
    by (symmetry; apply Z.leb_gt; lia).
  cbn [orb].
  destruct (nth_error s (Z.to_nat p)) as [c|] eqn:Hc.
  - exists c. split; [reflexivity|]. eapply nth_error_In; eauto.
  - apply nth_error_None in Hc. lia.
Qed.

Lemma charAt_empty x : charAt [] x = [].
Proof.
  unfold charAt. destruct (ToIntegerOrInfinity x) as [p| |]; try reflexivity.
  destruct ((p <? 0) || (Z.of_nat (@length char16 []) <=? p));
    [reflexivity|]. now destruct (Z.to_nat p).
Qed.

(** The index computed by [getRandomChar] is an index of [characters]. *)
Lemma random_index (characters : jsstring) (r : Number) :
  unit_interval r = true ->
  (1 <= length characters <= 64)%nat ->
  exists c,
    charAt characters (floor (mul r (str_length characters))) = [c] /\
    In c characters.
Proof.
  intros Hr Hlen.
  set (L := Z.of_nat (length characters)).
  assert (HL : 1 <= L <= 64) by (unfold L; lia).
  destruct (of_Z_small L HL) as (mL & eL & HofZ & HeL & HmL).
  unfold str_length. fold L. rewrite HofZ.
  destruct (unit_interval_cases r Hr) as [[s ->]|(m & e & -> & He & Hm)].
  - apply (charAt_index characters 0); [unfold L in HL; lia|].
    reflexivity.
  - unfold mul, SFmul. cbn [xorb].
    destruct (random_index_bound (Zpos (m * mL)) (e + eL) L)
      as (p & Hp & Hrange); try lia.
    + rewrite Pos2Z.inj_mul, HmL.
      replace (- (e + eL)) with (- e + - eL) by lia.
      rewrite pow2_split by lia.
      assert (H53 : 2 ^ 53 <= 2 ^ (- e)) by (apply Z.pow_le_mono_r; lia).
      assert (HeLp : 0 < 2 ^ (- eL)) by (apply pow2_pos; lia).
      generalize dependent (2 ^ (- e)). generalize dependent (2 ^ (- eL)).
      intros F HmL HF G HG.
      change (2 ^ 53) with 9007199254740992 in *.
      assert (Zpos m * 9007199254740992 <= 9007199254740991 * G) by lia.
      assert (0 < L * F) by (apply Z.mul_pos_pos; lia).
      replace (Zpos m * (L * F) * 9007199254740992)
        with ((Zpos m * 9007199254740992) * (L * F)) by ring.
      replace (L * (9007199254740992 - 1) * (G * F))
        with ((9007199254740991 * G) * (L * F)) by ring.
      apply Z.mul_le_mono_nonneg_r; lia.
    + apply (charAt_index characters p); [unfold L in Hrange; lia|exact Hp].
Qed.

End RandomChar.
Import RandomChar.

(** ** What parseFloat reads *)

Module ParseFacts.

Lemma no_digit_tail c t : no_digit (c :: t) -> no_digit t.
Proof. intros Ht. now inversion Ht. Qed.

Lemma span_digits_no_digit t : no_digit t -> span_digits t = ([], t).
Proof.
  destruct t as [|c t]; [reflexivity|].
  intros Ht. inversion Ht as [|? ? Hc _]; subst. simpl. now rewrite Hc.
Qed.

Lemma span_digits_app s t :
  no_digit t ->
  span_digits (s ++ t) = (fst (span_digits s), snd (span_digits s) ++ t).
Proof.
  intros Ht. induction s as [|c s IH]; simpl.
  - now apply span_digits_no_digit.
  - destruct (is_digit c); [|reflexivity].
    rewrite IH. now destruct (span_digits s).
Qed.

Lemma parse_sign_no_digit t : no_digit t -> no_digit (snd (parse_sign t)).
Proof.
  destruct t as [|c t]; [intros; constructor|].
  intros Ht. simpl.
  destruct (N.eqb c 45); [now apply no_digit_tail in Ht|].
  destruct (N.eqb c 43); [now apply no_digit_tail in Ht|exact Ht].
Qed.

Lemma parse_sign_app s t :
  s <> [] ->
  parse_sign (s ++ t) = (fst (parse_sign s), snd (parse_sign s) ++ t).
Proof.
  destruct s as [|c s]; [congruence|]. intros _. simpl.
  destruct (N.eqb c 45); [reflexivity|].
  now destruct (N.eqb c 43).
Qed.

Lemma exponent_part_no_digit t : no_digit t -> exponent_part t = 0.
Proof.
  destruct t as [|c t]; [reflexivity|]. intros Ht. simpl.
  destruct (N.eqb c 101 || N.eqb c 69); [|reflexivity].
  apply no_digit_tail in Ht. apply parse_sign_no_digit in Ht.
  destruct (parse_sign t) as [neg r]. simpl in *.
  now rewrite span_digits_no_digit.
Qed.

Lemma exponent_part_app s t :
  no_digit t -> exponent_part (s ++ t) = exponent_part s.
Proof.
  intros Ht. destruct s as [|c s].
  - now apply exponent_part_no_digit.
  - simpl. destruct (N.eqb c 101 || N.eqb c 69); [|reflexivity].
    destruct s as [|c' s].
    + simpl app. pose proof (parse_sign_no_digit t Ht) as Hs.
      destruct (parse_sign t) as [neg r]. simpl in *.
      now rewrite span_digits_no_digit.
    + rewrite parse_sign_app by discriminate.
      destruct (parse_sign (c' :: s)) as [neg r]. cbn [fst snd].
      now rewrite span_digits_app.
Qed.

Lemma starts_with_app p s t :
  starts_with p s = true -> starts_with p (s ++ t) = true.
Proof.
  revert s. induction p as [|a p IH]; intros [|b s]; simpl; auto;
    [discriminate|].
  intros Hs. apply andb_prop in Hs as [-> Hs]. now apply IH.
Qed.

(** A string that begins with a decimal literal does not begin "Infinity",
    whatever follows it. *)
Lemma starts_with_Infinity_digit c s :
  (is_digit c || N.eqb c 46) = true ->
  starts_with (str "Infinity") (c :: s) = false.
Proof.
  intros Hc. change (str "Infinity") with (73%N :: str "nfinity").
  cbn [starts_with].
  destruct (N.eqb_spec 73 c) as [<-|_]; [discriminate|reflexivity].
Qed.

Lemma literal_head c s l :
  starts_with (str "Infinity") (c :: s) = false ->
  StrUnsignedDecimalLiteral (c :: s) = Some l ->
  (is_digit c || N.eqb c 46) = true.
Proof.
  unfold StrUnsignedDecimalLiteral. intros ->.
  cbn [span_digits].
  destruct (is_digit c); [reflexivity|].
  destruct (N.eqb c 46); [reflexivity|discriminate].
Qed.

Lemma literal_app s t l :
  no_digit t ->
  StrUnsignedDecimalLiteral s = Some l ->
  StrUnsignedDecimalLiteral (s ++ t) = Some l.
Proof.
  intros Ht Hl.
  destruct (starts_with (str "Infinity") s) eqn:Hinf.
  - unfold StrUnsignedDecimalLiteral in *.
    rewrite Hinf in Hl. now rewrite starts_with_app.
  - assert (Hinf' : starts_with (str "Infinity") (s ++ t) = false).
    { destruct s as [|c s]; [discriminate|].
      apply starts_with_Infinity_digit. eapply literal_head; eauto. }
    unfold StrUnsignedDecimalLiteral in *.
    rewrite Hinf in Hl. rewrite Hinf', span_digits_app by exact Ht.
    destruct (span_digits s) as [ip r1]. cbn [fst snd].
    destruct r1 as [|c r1].
    + (* the digits run to the end of [s] *)
      rewrite app_nil_r in Hl. cbn [app].
      assert (Hfp : exists r2, no_digit r2 /\
                match t with
                | [] => ([], [])
                | c :: r => if N.eqb c 46 then span_digits r else ([], t)
                end = ([], r2)).
      { destruct t as [|c r]; [exists []; split; [constructor|reflexivity]|].
        destruct (N.eqb c 46).
        - exists r. split; [now apply no_digit_tail in Ht|].
          apply span_digits_no_digit. now apply no_digit_tail in Ht.
        - exists (c :: r). now split. }
      destruct Hfp as (r2 & Hr2 & ->).
      rewrite app_nil_r, (exponent_part_no_digit r2 Hr2). exact Hl.
    + cbn [app]. destruct (N.eqb c 46).
      * rewrite span_digits_app by exact Ht.
        destruct (span_digits r1) as [fp r2]. cbn [fst snd].
        now rewrite exponent_part_app.
      * change (c :: r1 ++ t) with ((c :: r1) ++ t).
        now rewrite exponent_part_app.
Qed.

Lemma trim_start_app s t :
  trim_start s <> [] -> trim_start (s ++ t) = trim_start s ++ t.
Proof.
  induction s as [|c s IH]; simpl; [congruence|].
  destruct (is_whitespace c); [exact IH|reflexivity].
Qed.

Lemma parse_sign_nonempty s :
  StrUnsignedDecimalLiteral (snd (parse_sign s)) <> None -> s <> [].
Proof. intros Hl ->. now apply Hl. Qed.

(** Code units without a digit after a string that parses do not change
    what parseFloat reads. *)
Lemma parseFloat_app s t :
  no_digit t -> isNaN (parseFloat s) = false ->
  parseFloat (s ++ t) = parseFloat s.
Proof.
  intros Ht Hs. unfold parseFloat in *.
  assert (Hne : trim_start s <> []).
  { intros E. rewrite E in Hs. discriminate. }
  rewrite trim_start_app, parse_sign_app by exact Hne.
  destruct (parse_sign (trim_start s)) as [neg r]. cbn [fst snd].
  destruct (StrUnsignedDecimalLiteral r) as [l|] eqn:Hl; [|discriminate].
  now rewrite (literal_app r t l Ht Hl).
Qed.

End ParseFacts.
Import ParseFacts.

(** ** Facts about strings *)

Lemma jsstring_eqb_eq (s1 s2 : jsstring) : JSString.eqb s1 s2 = true <-> s1 = s2.
Proof.
  revert s2. induction s1 as [|c1 r1 IH]; intros [|c2 r2]; simpl;
    try (split; [discriminate|discriminate]); [tauto|].
  rewrite andb_true_iff, N.eqb_eq, IH. split.
  - intros [-> ->]. reflexivity.
  - intros [= -> ->]. tauto.
Qed.

Lemma jsstring_eqb_neq (s1 s2 : jsstring) : s1 <> s2 -> JSString.eqb s1 s2 = false.
Proof.
  intros Hne. destruct (JSString.eqb s1 s2) eqn:E; [|reflexivity].
  apply jsstring_eqb_eq in E. contradiction.
Qed.

(** ** generateRandomValue *)

Section RandomValue.

Context {P : Type}.
Variable host : Host.

Lemma after_draws_0 (w : World P) : after_draws 0 w = w.
Proof. now destruct w. Qed.

Lemma after_draws_S n (w : World P) :
  after_draws n (after_draws 1 w) = after_draws (S n) w.
Proof. unfold after_draws; simpl. f_equal. lia. Qed.

Lemma Math_random_step (w : World P) :
  Math_random host w = Returned (random_values host (draws w)) (after_draws 1 w).
Proof. reflexivity. Qed.

Lemma random_loop_spec (characters : jsstring) :
  random_in_range host ->
  (1 <= length characters <= 64)%nat ->
  forall n randomValue (w : World P),
  exists v,
    random_loop host n characters randomValue w
      = Returned (randomValue ++ v) (after_draws n w) /\
    length v = n /\ Forall (fun c => In c characters) v.
Proof.
  intros Hr Hlen. induction n as [|n IH]; intros acc w.
  - exists []. rewrite app_nil_r, after_draws_0. repeat split. constructor.
  - cbn [random_loop]. unfold bind at 1, getRandomChar, bind, ret.
    rewrite Math_random_step.
    destruct (random_index characters (random_values host (draws w)))
      as (c & Hc & Hin); [apply Hr|exact Hlen|].
    rewrite Hc.
    destruct (IH (acc ++ [c]) (after_draws 1 w)) as (v & Hv & Hl & Hall).
    exists (c :: v). rewrite Hv, after_draws_S, <- app_assoc.
    repeat split; [simpl; lia|now constructor].
Qed.

Lemma random_loop_empty n : forall randomValue (w : World P),
  random_loop host n [] randomValue w = Returned randomValue (after_draws n w).
Proof.
  induction n as [|n IH]; intros acc w.
  - now rewrite after_draws_0.
  - cbn [random_loop]. unfold bind at 1, getRandomChar, bind, ret.
    rewrite Math_random_step, charAt_empty, app_nil_r, IH, after_draws_S.
    reflexivity.
Qed.

Lemma Forall_from_charset (ok : char16 -> bool) (characters v : jsstring) :
  forallb ok characters = true ->
  Forall (fun c => In c characters) v ->
  Forall (fun c => ok c = true) v.
Proof.
  intros Hok Hall. rewrite forallb_forall in Hok.
  eapply Forall_impl; [|exact Hall]. auto.
Qed.

End RandomValue.

(** C2: with Math.random() in the unit interval, generateRandomValue(n, kind)
    for each of the three kinds returns a string of exactly n code units, all
    digits for "numeric", all letters or digits for "alphanumeric", and all
    from the special characters of the source for "characters". *)
Theorem generateRandomValue_length_and_charset
    {P : Type} (host : Host) (n : nat) (w : World P) :
  random_in_range host ->
  (exists v, generateRandomValue host n (str "numeric") w
               = Returned v (after_draws n w) /\
             length v = n /\ Forall (fun c => is_digit c = true) v) /\
  (exists v, generateRandomValue host n (str "alphanumeric") w
               = Returned v (after_draws n w) /\
             length v = n /\ Forall (fun c => is_alphanumeric c = true) v) /\
  (exists v, generateRandomValue host n (str "characters") w
               = Returned v (after_draws n w) /\
             length v = n /\ Forall (fun c => is_special c = true) v).
Proof.
  intros Hr. unfold generateRandomValue.
  repeat split.
  - destruct (random_loop_spec (P := P) host (str "0123456789") Hr
                ltac:(vm_compute; lia) n [] w) as (v & Hv & Hl & Hall).
    exists v. repeat split; [exact Hv|exact Hl|].
    eapply Forall_from_charset; [|exact Hall]. reflexivity.
  - destruct (random_loop_spec (P := P) host
                (str "ABCDEFGHIJKLMNOPQRSTUVWXYZabcdefghijklmnopqrstuvwxyz0123456789")
                Hr ltac:(vm_compute; lia) n [] w) as (v & Hv & Hl & Hall).
    exists v. repeat split; [exact Hv|exact Hl|].
    eapply Forall_from_charset; [|exact Hall]. reflexivity.
  - destruct (random_loop_spec (P := P) host (str "!@#$%^&*()_-+=<>?") Hr
                ltac:(vm_compute; lia) n [] w) as (v & Hv & Hl & Hall).
    exists v. repeat split; [exact Hv|exact Hl|].
    eapply Forall_from_charset; [|exact Hall]. reflexivity.
Qed.

(** C3: for a kind other than the three known ones the character set is
    empty, every drawn character is the empty string, and the call returns
    the empty string without throwing. *)
Theorem generateRandomValue_unknown_kind
    {P : Type} (host : Host) (n : nat) (kind : jsstring)
    (w : World P) :
  kind <> str "numeric" -> kind <> str "alphanumeric" ->
  kind <> str "characters" ->
  generateRandomValue host n kind w = Returned [] (after_draws n w).
Proof.
  intros H1 H2 H3. unfold generateRandomValue.
  rewrite (jsstring_eqb_neq _ _ H1), (jsstring_eqb_neq _ _ H2),
    (jsstring_eqb_neq _ _ H3).
  apply random_loop_empty.
Qed.

(** ** The dialog listener *)

Section Dialogs.

Context {P : Type} `{PageHandle P}.

Lemma update_length {A} (l : list A) i v : length (update l i v) = length l.
Proof.
  revert i. induction l as [|x l IH]; intros [|i]; simpl; auto.
Qed.

Lemma nth_update {A} (l : list A) i v d :
  (i < length l)%nat -> nth i (update l i v) d = v.
Proof.
  revert i. induction l as [|x l IH]; intros [|i]; simpl; try lia; auto.
  intros Hi. apply IH. lia.
Qed.

Lemma on_page_cells {A} (m : M P A) (w : World P) :
  match on_page m w with
  | Returned _ w' | Thrown _ w' => cells w' = cells w
  end.
Proof. unfold on_page. now destruct (m (page w)). Qed.

Lemma run_listener_returns l d (w w' : World P) :
  run_listener l d w = Returned tt w' ->
  match l with
  | CaptureAndAccept c => cells w' = update (cells w) c (dialog_message d)
  end.
Proof.
  destruct l as [c]. unfold run_listener, bind, write_cell.
  match goal with |- context [on_page ?m ?w0] =>
    pose proof (on_page_cells m w0) as Hc;
    destruct (on_page m w0) as [[] w1|] end; [|discriminate].
  intros [= <-]. exact Hc.
Qed.

Lemma unawaited_returns (m k : JS P unit) (w w' : World P) :
  unawaited m k w = Returned tt w' ->
  exists w1, m w = Returned tt w1 /\ k w1 = Returned tt w'.
Proof.
  unfold unawaited. destruct (m w) as [[] w1|e w1].
  - intros Hk. now exists w1.
  - destruct (k w1); discriminate.
Qed.

Lemma emit_returns_length ls d : forall (w w' : World P),
  emit ls d w = Returned tt w' -> length (cells w') = length (cells w).
Proof.
  induction ls as [|[event l] ls IH]; intros w w'; cbn [emit].
  - now intros [= <-].
  - destruct (JSString.eqb event (str "dialog")); [|apply IH].
    intros Hemit. apply unawaited_returns in Hemit.
    destruct Hemit as [w1 [Hrun Hrest]].
    apply IH in Hrest. rewrite Hrest.
    apply run_listener_returns in Hrun. destruct l as [c].
    now rewrite Hrun, update_length.
Qed.

Lemma emit_app l1 l2 d (w : World P) :
  emit (l1 ++ l2) d w = unawaited (emit l1 d) (emit l2 d) w.
Proof.
  revert w. induction l1 as [|[event l] l1 IH]; intros w; cbn [emit app].
  - reflexivity.
  - destruct (JSString.eqb event (str "dialog")); [|apply IH].
    unfold unawaited in *.
    destruct (run_listener l d w) as [[] w1|e w1]; rewrite IH.
    + reflexivity.
    + destruct (emit l1 d w1) as [[] w2|e2 w2];
        now destruct (emit l2 d w2).
Qed.

(** A dialog that appears after the call is seen by the listener: its
    message reaches the captured variable, which the caller never reads
    again. *)
Lemma late_dialog_is_captured (w w1 w2 : World P) (v : jsstring) d :
  getTextAndAcceptAlert w = Returned v w1 ->
  dialog_appears d w1 = Returned tt w2 ->
  v = [] /\ nth (length (cells w)) (cells w2) [] = dialog_message d.
Proof.
  unfold getTextAndAcceptAlert, bind, let_cell, page_on, read_cell.
  cbn [listeners cells page clock draws].
  rewrite app_nth2, Nat.sub_diag by lia. intros [= <- <-] Hd.
  split; [reflexivity|].
  unfold dialog_appears in Hd. cbn [listeners] in Hd.
  rewrite emit_app in Hd.
  apply unawaited_returns in Hd. destruct Hd as [w3 [Hfirst Hd]].
  apply emit_returns_length in Hfirst. cbn [cells] in Hfirst.
  rewrite length_app in Hfirst. cbn [length] in Hfirst.
  cbn [emit] in Hd.
  change (JSString.eqb (str "dialog") (str "dialog")) with true in Hd.
  cbv beta iota in Hd.
  apply unawaited_returns in Hd. destruct Hd as [w4 [Hrun Hd]].
  unfold ret in Hd. injection Hd as <-.
  apply run_listener_returns in Hrun. rewrite Hrun.
  apply nth_update. lia.
Qed.

End Dialogs.

(** C1: getTextAndAcceptAlert returns the empty string from every world: it
    stores '' in [alertText], registers the dialog listener, and returns
    what [alertText] holds, before any dialog can reach the listener. *)
Theorem getTextAndAcceptAlert_returns_empty {P : Type} (w : World P) :
  getTextAndAcceptAlert w
  = Returned []
      {| page := page w;
         listeners :=
           listeners w ++ [(str "dialog", CaptureAndAccept (length (cells w)))];
         cells := cells w ++ [[]];
         clock := clock w;
         draws := draws w |}.
Proof.
  unfold getTextAndAcceptAlert, bind, let_cell, page_on, read_cell.
  cbn [listeners cells page clock draws].
  now rewrite app_nth2, Nat.sub_diag by lia.
Qed.

(** ** The digits of a Number *)

Module Shortest.

Import Currency.

Lemma ceil_bounds a d : 0 < d -> a <= - (- a / d) * d < a + d.
Proof.
  intros Hd. pose proof (Z.div_mod (- a) d ltac:(lia)) as Hdm.
  pose proof (Z.mod_pos_bound (- a) d Hd). nia.
Qed.

Lemma floor_bounds a d : 0 < d -> a - d < a / d * d <= a.
Proof.
  intros Hd. pose proof (Z.div_mod a d ltac:(lia)) as Hdm.
  pose proof (Z.mod_pos_bound a d Hd). nia.
Qed.

Lemma shortest_at_in_interval i p s :
  0 < den i -> shortest_at i p = Some s -> in_interval i s p.
Proof.
  intros Hden. unfold shortest_at, in_interval.
  set (n := 10 ^ Z.max 0 (- p)). set (d := den i * 10 ^ Z.max 0 p).
  assert (Hd : 0 < d).
  { unfold d. apply Z.mul_pos_pos; [exact Hden|].
    apply Z.pow_pos_nonneg; lia. }
  generalize (mid i * n / d), (mid i * n mod d). intros q r.
  set (nearest := if 2 * r <? d then q else _).
  generalize nearest. clear nearest. intros nearest.
  pose proof (ceil_bounds (lo i * n) d Hd) as Hlc.
  pose proof (floor_bounds (lo i * n) d Hd) as Hlf.
  pose proof (ceil_bounds (hi i * n) d Hd) as Hhc.
  pose proof (floor_bounds (hi i * n) d Hd) as Hhf.
  destruct (closed i).
  - destruct (Z.leb_spec (- (- (lo i * n) / d)) (hi i * n / d)) as [Hle|];
      [|discriminate].
    intros [= <-].
    generalize dependent (- (- (lo i * n) / d)).
    generalize dependent (hi i * n / d). intros g Hg l Hl Hle. nia.
  - destruct (Z.leb_spec (lo i * n / d + 1) (- (- (hi i * n) / d) - 1))
      as [Hle|]; [|discriminate].
    intros [= <-].
    generalize dependent (- (- (hi i * n) / d)).
    generalize dependent (lo i * n / d). intros l Hl g Hg Hle. nia.
Qed.

Lemma exact_decimal_in_interval m e :
  in_interval (rounding_interval m e)
    (fst (exact_decimal m e)) (snd (exact_decimal m e)).
Proof.
  unfold in_interval, exact_decimal, rounding_interval. cbn [lo hi den closed].
  generalize ((Z.pos m =? 2 ^ (prec - 1)) && (3 - emax - prec <? e)).
  intros narrow.
  set (below := if narrow then 4 * Z.pos m - 1 else 4 * Z.pos m - 2).
  assert (Hb : 4 * Z.pos m - 2 <= below < 4 * Z.pos m).
  { unfold below. destruct narrow; lia. }
  generalize dependent below. intros below Hb.
  assert (Hgoal : forall s p, 0 < s -> 0 < p ->
            below * s * p < 4 * Z.pos m * s * p < (4 * Z.pos m + 2) * s * p).
  { intros s p Hs Hp. assert (0 < s * p) by lia. nia. }
  assert (Hfin : forall a b c,
            a < b < c ->
            if Z.even (Z.pos m) then a <= b <= c else a < b < c).
  { intros a b c Habc. destruct (Z.even (Z.pos m)); lia. }
  apply Hfin.
  destruct (Z.leb_spec 0 e) as [He|He]; cbn [fst snd].
  - change (- 0) with 0. cbn [Z.max]. change (10 ^ 0) with 1.
    rewrite !Z.mul_1_r.
    destruct (Z.le_gt_cases 2 e) as [H2|H2].
    + rewrite (Z.max_r 0 (e - 2)), (Z.max_l 0 (2 - e)) by lia.
      change (2 ^ 0) with 1. rewrite !Z.mul_1_r.
      assert (He2 : 2 ^ e = 2 ^ (e - 2) * 4).
      { replace e with ((e - 2) + 2) at 1 by lia.
        now rewrite Z.pow_add_r by lia. }
      rewrite He2. clear He2.
      assert (Hs := Z.pow_pos_nonneg 2 (e - 2) ltac:(lia) ltac:(lia)).
      generalize dependent (2 ^ (e - 2)). intros s Hs.
      specialize (Hgoal s 1 Hs ltac:(lia)). lia.
    + rewrite (Z.max_l 0 (e - 2)), (Z.max_r 0 (2 - e)) by lia.
      change (2 ^ 0) with 1. rewrite !Z.mul_1_r.
      replace (Z.pos m * 2 ^ e * 2 ^ (2 - e)) with (4 * Z.pos m).
      * lia.
      * rewrite <- Z.mul_assoc, <- Z.pow_add_r by lia.
        replace (e + (2 - e)) with 2 by lia. change (2 ^ 2) with 4. ring.
  - rewrite (Z.max_l 0 (e - 2)), (Z.max_r 0 (2 - e)), (Z.max_r 0 (- e)),
      (Z.max_l 0 e) by lia.
    change (2 ^ 0) with 1. change (10 ^ 0) with 1. rewrite !Z.mul_1_r.
    replace (2 - e) with (2 + - e) by lia. rewrite Z.pow_add_r by lia.
    change (2 ^ 2) with 4. change 10 with (2 * 5).
    rewrite Z.pow_mul_l.
    assert (H2 := Z.pow_pos_nonneg 2 (- e) ltac:(lia) ltac:(lia)).
    assert (H5 := Z.pow_pos_nonneg 5 (- e) ltac:(lia) ltac:(lia)).
    generalize dependent (2 ^ (- e)). generalize dependent (5 ^ (- e)).
    intros f Hf t Ht. specialize (Hgoal t f Ht Hf). nia.
Qed.

Lemma rounding_interval_den m e : 0 < den (rounding_interval m e).
Proof. cbn [rounding_interval den]. apply Z.pow_pos_nonneg; lia. Qed.

Lemma shortest_from_in_interval steps i exact : forall p,
  0 < den i ->
  in_interval i (fst exact) (snd exact) ->
  let r := shortest_from steps i p exact in
  in_interval i (fst r) (snd r).
Proof.
  induction steps as [|steps IH]; intros p Hden Hex; cbn [shortest_from].
  - destruct (shortest_at i p) as [s|] eqn:Hs; [|exact Hex].
    cbn [fst snd]. now apply shortest_at_in_interval.
  - destruct (shortest_at i p) as [s|] eqn:Hs; [|now apply IH].
    cbn [fst snd]. now apply shortest_at_in_interval.
Qed.

(** The decimal chosen for a Number lies in the rounding interval of the
    Number, whichever way the search ends. *)
Lemma shortest_decimal_in_interval m e :
  in_interval (rounding_interval m e)
    (fst (shortest_decimal m e)) (snd (shortest_decimal m e)).
Proof.
  unfold shortest_decimal.
  apply shortest_from_in_interval.
  - apply rounding_interval_den.
  - apply exact_decimal_in_interval.
Qed.

Lemma in_interval_le i s p :
  in_interval i s p ->
  s * (den i * 10 ^ Z.max 0 p) <= hi i * 10 ^ Z.max 0 (- p).
Proof. unfold in_interval. destruct (closed i); lia. Qed.

(** Where the search finds nothing there is nothing. *)
Lemma shortest_at_none i p s :
  0 < den i -> shortest_at i p = None -> ~ in_interval i s p.
Proof.
  intros Hden. unfold shortest_at, in_interval.
  set (n := 10 ^ Z.max 0 (- p)). set (d := den i * 10 ^ Z.max 0 p).
  assert (Hd : 0 < d).
  { unfold d. apply Z.mul_pos_pos; [exact Hden|].
    apply Z.pow_pos_nonneg; lia. }
  pose proof (ceil_bounds (lo i * n) d Hd) as Hlc.
  pose proof (floor_bounds (lo i * n) d Hd) as Hlf.
  pose proof (ceil_bounds (hi i * n) d Hd) as Hhc.
  pose proof (floor_bounds (hi i * n) d Hd) as Hhf.
  destruct (closed i).
  - set (l := - (- (lo i * n) / d)) in *. set (g := hi i * n / d) in *.
    clearbody l g.
    destruct (Z.leb_spec l g) as [|Hlt]; [discriminate|].
    intros _ Hin.
    assert (Hls : l - 1 < s)
      by (apply (Z.mul_lt_mono_pos_r d); [exact Hd|lia]).
    assert (Hsg : s < g + 1)
      by (apply (Z.mul_lt_mono_pos_r d); [exact Hd|lia]).
    lia.
  - set (l := lo i * n / d) in *. set (g := - (- (hi i * n) / d)) in *.
    clearbody l g.
    destruct (Z.leb_spec (l + 1) (g - 1)) as [|Hlt]; [discriminate|].
    intros _ Hin.
    assert (Hls : l < s)
      by (apply (Z.mul_lt_mono_pos_r d); [exact Hd|lia]).
    assert (Hsg : s < g)
      by (apply (Z.mul_lt_mono_pos_r d); [exact Hd|lia]).
    lia.
Qed.

Lemma exponent_estimate_all l :
  -1100 <= l <= 1100 -> exponent_estimate l = true.
Proof.
  intros Hl.
  assert (Hall : forallb (fun k => exponent_estimate (Z.of_nat k - 1100))
                   (seq 0 2201) = true) by (vm_compute; reflexivity).
  rewrite forallb_forall in Hall.
  specialize (Hall (Z.to_nat (l + 1100))).
  rewrite Z2Nat.id in Hall by lia.
  replace (l + 1100 - 1100) with l in Hall by lia.
  apply Hall, in_seq. lia.
Qed.


(** No decimal above the exponent at which the search starts is in the
    interval. *)
Lemma above_first_exponent m e s p :
  Zpos m < 2 ^ 53 -> -1074 <= e <= 971 ->
  first_exponent (rounding_interval m e) < p -> 0 < s ->
  ~ in_interval (rounding_interval m e) s p.
Proof.
  intros Hm He Hp Hs Hin. apply in_interval_le in Hin.
  unfold first_exponent in Hp.
  set (i := rounding_interval m e) in *.
  set (a := Z.max 0 (2 - e)). set (b := Z.max 0 (e - 2)).
  assert (Hden : den i = 2 ^ a) by reflexivity.
  assert (Hhi : hi i = (4 * Zpos m + 2) * 2 ^ b) by reflexivity.
  assert (Ha : 0 <= a <= 1076) by lia.
  assert (Hb : 0 <= b <= 969) by lia.
  assert (Hpb : 0 < 2 ^ b) by (apply Z.pow_pos_nonneg; lia).
  assert (Hhi0 : 0 < hi i) by (rewrite Hhi; apply Z.mul_pos_pos; lia).
  destruct (Z.log2_spec (hi i) Hhi0) as [_ Hlog].
  assert (HH : 0 <= Z.log2 (hi i) <= 1024).
  { split; [apply Z.log2_nonneg|].
    assert (Z.log2 (hi i) < 56 + b); [|lia].
    apply Z.log2_lt_pow2; [exact Hhi0|].
    rewrite Hhi, Z.pow_add_r by lia.
    apply Z.mul_lt_mono_pos_r; [exact Hpb|]. lia. }
  rewrite Hden, Z.log2_pow2 in Hp by lia.
  rewrite Hden in Hin.
  set (H := Z.log2 (hi i)) in *. set (L := H + 1 - a) in *.
  pose proof (exponent_estimate_all L ltac:(lia)) as Hest.
  unfold exponent_estimate in Hest.
  set (q := L * 30103 / 100000 + 3) in *.
  assert (Hq : q <= p) by lia.
  assert (Hpa : 0 < 2 ^ a) by (apply Z.pow_pos_nonneg; lia).
  assert (Hpp : 0 < 10 ^ Z.max 0 p) by (apply Z.pow_pos_nonneg; lia).
  assert (Hpn : 0 < 10 ^ Z.max 0 (- p)) by (apply Z.pow_pos_nonneg; lia).
  assert (Hle : 2 ^ a * 10 ^ Z.max 0 p <= hi i * 10 ^ Z.max 0 (- p)).
  { apply Z.le_trans with (2 := Hin).
    rewrite <- (Z.mul_1_l (2 ^ a * 10 ^ Z.max 0 p)) at 1.
    apply Z.mul_le_mono_nonneg_r; lia. }
  clear Hin.
  replace (Z.succ H) with (H + 1) in Hlog by lia.
  destruct (Z.ltb_spec 0 L) as [HL|HL].
  - apply Z.leb_le in Hest.
    assert (Hq3 : 3 <= q).
    { unfold q. assert (0 <= L * 30103 / 100000); [|lia].
      apply Z.div_pos; lia. }
    rewrite (Z.max_r 0 p), (Z.max_l 0 (- p)) in Hle by lia.
    change (10 ^ 0) with 1 in Hle. rewrite Z.mul_1_r in Hle.
    assert (Hpq : 10 ^ q <= 10 ^ p) by (apply Z.pow_le_mono_r; lia).
    assert (Hsplit : 2 ^ (H + 1) = 2 ^ a * 2 ^ L).
    { rewrite <- Z.pow_add_r by lia. f_equal. unfold L. lia. }
    rewrite Hsplit in Hlog.
    assert (2 ^ a * 2 ^ L <= 2 ^ a * 10 ^ p); [|lia].
    apply Z.mul_le_mono_nonneg_l; lia.
  - assert (Hsplit : 2 ^ a = 2 ^ (H + 1) * 2 ^ (- L)).
    { rewrite <- Z.pow_add_r by lia. f_equal. unfold L. lia. }
    assert (HpL : 1 <= 2 ^ (- L)).
    { change 1 with (2 ^ 0). apply Z.pow_le_mono_r; lia. }
    assert (HpH : 0 < 2 ^ (H + 1)) by (apply Z.pow_pos_nonneg; lia).
    destruct (Z.le_gt_cases 0 p) as [Hp0|Hp0].
    + rewrite (Z.max_r 0 p), (Z.max_l 0 (- p)) in Hle by lia.
      change (10 ^ 0) with 1 in Hle. rewrite Z.mul_1_r in Hle.
      assert (Hp1 : 1 <= 10 ^ p).
      { change 1 with (10 ^ 0). apply Z.pow_le_mono_r; lia. }
      assert (2 ^ (H + 1) <= 2 ^ a * 10 ^ p); [|lia].
      rewrite Hsplit.
      rewrite <- (Z.mul_1_r (2 ^ (H + 1))) at 1. rewrite <- Z.mul_assoc.
      apply Z.mul_le_mono_nonneg_l; [lia|].
      change 1 with (1 * 1). apply Z.mul_le_mono_nonneg; lia.
    + rewrite (Z.max_l 0 p), (Z.max_r 0 (- p)) in Hle by lia.
      change (10 ^ 0) with 1 in Hle. rewrite Z.mul_1_r in Hle.
      destruct (Z.ltb_spec q 0) as [Hq0|Hq0]; [|lia].
      apply Z.leb_le in Hest.
      assert (Hpq : 10 ^ (- p) <= 10 ^ (- q))
        by (apply Z.pow_le_mono_r; lia).
      assert (Hlt : hi i * 10 ^ (- p) < 2 ^ (H + 1) * 10 ^ (- p)).
      { apply Z.mul_lt_mono_pos_r; [|exact Hlog].
        apply Z.pow_pos_nonneg; lia. }
      assert (Hle2 : 2 ^ (H + 1) * 10 ^ (- p) <= 2 ^ (H + 1) * 2 ^ (- L)).
      { apply Z.mul_le_mono_nonneg_l; lia. }
      lia.
Qed.


Lemma shortest_from_spec steps i exact : forall p0,
  let r := shortest_from steps i p0 exact in
  (shortest_at i (snd r) = Some (fst r) /\ snd r <= p0 /\
   forall p, snd r < p <= p0 -> shortest_at i p = None)
  \/ (r = exact /\
      forall p, p0 - Z.of_nat steps <= p <= p0 -> shortest_at i p = None).
Proof.
  induction steps as [|steps IH]; intros p0; cbn [shortest_from].
  - destruct (shortest_at i p0) as [s|] eqn:Hs; cbn [fst snd].
    + left. repeat split; [exact Hs|lia|lia].
    + right. split; [reflexivity|]. intros p Hp.
      replace p with p0 by lia. exact Hs.
  - destruct (shortest_at i p0) as [s|] eqn:Hs; cbn [fst snd].
    + left. repeat split; [exact Hs|lia|lia].
    + destruct (IH (p0 - 1)) as [(Hfound & Hle & Hnone)|(Hex & Hnone)].
      * left. repeat split; [exact Hfound|lia|].
        intros p Hp. destruct (Z.eq_dec p p0) as [->|Hne]; [exact Hs|].
        apply Hnone. lia.
      * right. split; [exact Hex|].
        intros p Hp. destruct (Z.eq_dec p p0) as [->|Hne]; [exact Hs|].
        apply Hnone. lia.
Qed.

(** The decimal chosen for a Number has the fewest digits: no decimal of a
    greater exponent lies in the rounding interval of the Number. *)
Lemma shortest_decimal_fewest_digits m e s p :
  Zpos m < 2 ^ 53 -> -1074 <= e <= 971 -> 0 < s ->
  snd (shortest_decimal m e) < p ->
  ~ in_interval (rounding_interval m e) s p.
Proof.
  intros Hm He Hs. unfold shortest_decimal.
  set (i := rounding_interval m e). set (p0 := first_exponent i).
  pose proof (rounding_interval_den m e) as Hden. fold i in Hden.
  destruct (Z.le_gt_cases p p0) as [Hle|Hgt];
    [|intros _; now apply above_first_exponent].
  destruct (shortest_from_spec (Z.to_nat (p0 - Z.min 0 e)) i
              (exact_decimal m e) p0)
    as [(_ & _ & Hnone)|(Hex & Hnone)].
  - intros Hp. apply shortest_at_none; [exact Hden|]. apply Hnone. lia.
  - rewrite Hex.
    assert (Hsnd : snd (exact_decimal m e) = Z.min 0 e).
    { unfold exact_decimal. destruct (Z.leb_spec 0 e); cbn [snd]; lia. }
    rewrite Hsnd. intros Hp.
    pose proof (exact_decimal_in_interval m e) as Hin.
    fold i in Hin. rewrite Hsnd in Hin.
    exfalso. revert Hin. apply shortest_at_none; [exact Hden|].
    apply Hnone. rewrite Z2Nat.id by lia. lia.
Qed.


(** A whole Number below 2 ^ 53, as its significand says. *)
Lemma small_integer_spec m e v :
  Zpos m < 2 ^ 53 -> e = -1074 \/ 2 ^ 52 <= Zpos m ->
  small_integer m e = Some v ->
  0 < v /\ e <= 0 /\ Zpos m = v * 2 ^ (- e).
Proof.
  intros Hm Hcan Hv.
  assert (He : e <= 0 /\ Zpos m = v * 2 ^ (- e)).
  { unfold small_integer in Hv. destruct (Z.leb_spec 0 e) as [He|He].
    - destruct (Z.ltb_spec (Zpos m * 2 ^ e) (2 ^ 53)) as [Hlt|];
        [|discriminate].
      assert (Hve : v = Zpos m * 2 ^ e) by congruence. clear Hv.
      destruct (Z.eq_dec e 0) as [->|Hne].
      { split; [lia|]. change (- 0) with 0. change (2 ^ 0) with 1 in *. lia. }
      exfalso. destruct Hcan as [->|Hcan]; [lia|].
      assert (2 ^ 1 <= 2 ^ e) by (apply Z.pow_le_mono_r; lia).
      change (2 ^ 1) with 2 in *. nia.
    - destruct (Z.eqb_spec (Zpos m mod 2 ^ (- e)) 0) as [Hmod|];
        [|discriminate].
      destruct (Zpos m / 2 ^ (- e) <? 2 ^ 53); [|discriminate].
      cbn [andb] in Hv.
      assert (Hve : v = Zpos m / 2 ^ (- e)) by congruence. clear Hv.
      split; [lia|].
      assert (Hpe : 0 < 2 ^ (- e)) by (apply Z.pow_pos_nonneg; lia).
      pose proof (Z.div_mod (Zpos m) (2 ^ (- e)) ltac:(lia)). lia. }
  destruct He as [He Hmv].
  assert (Hpe : 0 < 2 ^ (- e)) by (apply Z.pow_pos_nonneg; lia).
  repeat split; try assumption. nia.
Qed.

(** The bounds of the rounding interval of a Number that is not above 1 in
    its last place, over the denominator 4 * 2 ^ (- e). *)
Lemma rounding_interval_small m e :
  e <= 0 ->
  let i := rounding_interval m e in
  den i = 4 * 2 ^ (- e) /\ 4 * Zpos m - 2 <= lo i < 4 * Zpos m /\
  hi i = 4 * Zpos m + 2.
Proof.
  intros He. cbn [rounding_interval lo hi den].
  rewrite (Z.max_l 0 (e - 2)), (Z.max_r 0 (2 - e)) by lia.
  change (2 ^ 0) with 1. rewrite !Z.mul_1_r.
  replace (2 - e) with (2 + - e) by lia. rewrite Z.pow_add_r by lia.
  change (2 ^ 2) with 4.
  repeat split; destruct (_ && _); lia.
Qed.

(** A whole Number below 2 ^ 53 is a decimal of its rounding interval. *)
Lemma small_integer_in_interval m e v :
  Zpos m < 2 ^ 53 -> e = -1074 \/ 2 ^ 52 <= Zpos m ->
  small_integer m e = Some v ->
  in_interval (rounding_interval m e) v 0.
Proof.
  intros Hm Hcan Hv.
  destruct (small_integer_spec m e v Hm Hcan Hv) as (Hv0 & He & Hmv).
  destruct (rounding_interval_small m e He) as (Hden & Hlo & Hhi).
  unfold in_interval. rewrite Hden, Hhi.
  change (- 0) with 0. change (Z.max 0 0) with 0. change (10 ^ 0) with 1.
  rewrite !Z.mul_1_r.
  replace (v * (4 * 2 ^ (- e))) with (4 * Zpos m) by (rewrite Hmv; ring).
  destruct (closed (rounding_interval m e)); lia.
Qed.

(** A decimal of exponent 0 or more in the rounding interval of a whole
    Number below 2 ^ 53 is that Number. *)
Lemma small_integer_decimal m e v s p :
  Zpos m < 2 ^ 53 -> e = -1074 \/ 2 ^ 52 <= Zpos m ->
  small_integer m e = Some v -> 0 <= p ->
  in_interval (rounding_interval m e) s p -> s * 10 ^ p = v.
Proof.
  intros Hm Hcan Hv Hp Hin.
  destruct (small_integer_spec m e v Hm Hcan Hv) as (Hv0 & He & Hmv).
  destruct (rounding_interval_small m e He) as (Hden & Hlo & Hhi).
  assert (Hpe : 0 < 2 ^ (- e)) by (apply Z.pow_pos_nonneg; lia).
  assert (Hu : 0 < 10 ^ p) by (apply Z.pow_pos_nonneg; lia).
  apply in_interval_le in Hin as Hup.
  assert (Hlow : lo (rounding_interval m e) * 10 ^ Z.max 0 (- p)
                 <= s * (den (rounding_interval m e) * 10 ^ Z.max 0 p)).
  { unfold in_interval in Hin.
    destruct (closed (rounding_interval m e)); lia. }
  rewrite Hden, Hhi in Hup. rewrite Hden in Hlow.
  rewrite (Z.max_r 0 p), (Z.max_l 0 (- p)) in Hup, Hlow by lia.
  change (10 ^ 0) with 1 in Hup, Hlow. rewrite !Z.mul_1_r in Hup, Hlow.
  rewrite Hmv in Hup, Hlo.
  set (t := 2 ^ (- e)) in *. set (u := 10 ^ p) in *.
  set (l := lo (rounding_interval m e)) in *.
  clearbody t u l.
  assert (Hlt : s * u - 1 < v).
  { apply (Z.mul_lt_mono_pos_r (4 * t)); [lia|]. nia. }
  assert (Hgt : v - 1 < s * u).
  { apply (Z.mul_lt_mono_pos_r (4 * t)); [lia|]. nia. }
  lia.
Qed.

(** The digits taken from the integer are those of the shortest decimal:
    the hundredths of a Number are the hundredths of its shortest decimal,
    ties rounded up. *)
Lemma cents_of_shortest_decimal m e :
  Zpos m < 2 ^ 53 -> -1074 <= e <= 971 ->
  e = -1074 \/ 2 ^ 52 <= Zpos m ->
  cents m e
  = hundredths (fst (shortest_decimal m e)) (snd (shortest_decimal m e)).
Proof.
  intros Hm He Hcan. unfold cents.
  destruct (small_integer m e) as [v|] eqn:Hv;
    [|now destruct (shortest_decimal m e)].
  pose proof (shortest_decimal_in_interval m e) as Hin.
  pose proof (shortest_decimal_fewest_digits m e v 0 Hm He) as Hfew.
  destruct (shortest_decimal m e) as [s p]. cbn [fst snd] in *.
  destruct (small_integer_spec m e v Hm Hcan Hv) as (Hv0 & _ & _).
  assert (Hp : 0 <= p).
  { destruct (Z.le_gt_cases 0 p) as [|Hneg]; [assumption|exfalso].
    apply (Hfew Hv0); [lia|].
    now apply small_integer_in_interval. }
  rewrite <- (small_integer_decimal m e v s p Hm Hcan Hv Hp Hin).
  unfold hundredths.
  destruct (Z.leb_spec (-2) p) as [_|]; [|lia].
  rewrite Z.pow_add_r by lia. change (10 ^ 2) with 100. ring.
Qed.

End Shortest.

(** ** convertToMoneyFormat *)

(** The result of a call is computed in two steps, the parse first. *)
Ltac parse_then_format :=
  unfold convertToMoneyFormat;
  match goal with
  | |- context [parseFloat ?s] =>
      let x := eval vm_compute in (parseFloat s) in
      replace (parseFloat s) with x by (vm_compute; reflexivity)
  end;
  vm_compute; reflexivity.

(** C4: convertToMoneyFormat("1000") returns "$1,000.00",
    convertToMoneyFormat("abc") throws the 'Invalid amount' error, and in
    general the call throws when parseFloat gives NaN and otherwise returns
    the en-US currency rendering of the parsed Number.  The rendering is the
    one of the program: a minus sign first for a negative Number, the dollar
    sign, the integer digits in groups of three, and two fraction digits
    rounded half away from zero on the shortest decimal of the Number, as
    the amounts listed last show. *)
Theorem convertToMoneyFormat_parses_then_formats {P : Type} (w : World P) :
  convertToMoneyFormat (str "1000") w = Returned (str "$1,000.00") w /\
  convertToMoneyFormat (str "abc") w = Thrown invalid_amount w /\
  (forall amount,
     convertToMoneyFormat amount w
     = if isNaN (parseFloat amount) then Thrown invalid_amount w
       else Returned (Currency.toLocaleString (parseFloat amount)) w) /\
  convertToMoneyFormat (str "1.005") w = Returned (str "$1.01") w /\
  convertToMoneyFormat (str "2.675") w = Returned (str "$2.68") w /\
  convertToMoneyFormat (str "0.994") w = Returned (str "$0.99") w /\
  convertToMoneyFormat (str "999.995") w = Returned (str "$1,000.00") w /\
  convertToMoneyFormat (str "  -1234567.891") w
  = Returned (str "-$1,234,567.89") w /\
  convertToMoneyFormat (str "-0.001") w = Returned (str "-$0.00") w /\
  convertToMoneyFormat (str "1e23") w
  = Returned (str "$100,000,000,000,000,000,000,000.00") w /\
  convertToMoneyFormat (str "9007199254740993") w
  = Returned (str "$9,007,199,254,740,992.00") w /\
  convertToMoneyFormat (str "18446744073709551616") w
  = Returned (str "$18,446,744,073,709,552,000.00") w /\
  convertToMoneyFormat (str "Infinity") w = Returned (str "$" ++ [8734%N]) w.
Proof.
  repeat apply conj; try parse_then_format.
  intros amount. unfold convertToMoneyFormat.
  now destruct (isNaN (parseFloat amount)).
Qed.

(** C5: convertToMoneyFormat throws exactly when parseFloat of its argument
    is NaN; an argument made of a string that parses followed by code units
    without digits is accepted, and the call returns what it returns on the
    parsed prefix alone, as "12abc" and its like are. *)
Theorem convertToMoneyFormat_throws_iff_NaN {P : Type} (w : World P) :
  (forall amount,
     (exists e, convertToMoneyFormat amount w = Thrown e w)
     <-> isNaN (parseFloat amount) = true) /\
  (forall prefix trailing,
     isNaN (parseFloat prefix) = false -> no_digit trailing ->
     exists formatted,
       convertToMoneyFormat prefix w = Returned formatted w /\
       convertToMoneyFormat (prefix ++ trailing) w = Returned formatted w) /\
  convertToMoneyFormat (str "12abc") w = Returned (str "$12.00") w /\
  convertToMoneyFormat (str "12") w = Returned (str "$12.00") w /\
  convertToMoneyFormat (str " -12.5 USD") w = Returned (str "-$12.50") w /\
  convertToMoneyFormat (str "1.005abc") w = Returned (str "$1.01") w /\
  convertToMoneyFormat (str "1,000") w = Returned (str "$1.00") w /\
  convertToMoneyFormat (str "$12") w = Thrown invalid_amount w.
Proof.
  split; [|split; [|repeat apply conj; parse_then_format]].
  - intros amount. unfold convertToMoneyFormat.
    destruct (isNaN (parseFloat amount)); split.
    + reflexivity.
    + intros _. now exists invalid_amount.
    + intros [e He]. discriminate.
    + discriminate.
  - intros prefix trailing Hp Ht. unfold convertToMoneyFormat.
    rewrite (parseFloat_app prefix trailing Ht Hp), Hp.
    eexists. split; reflexivity.
Qed.

Lemma convertToMoneyFormat_throws_iff_NaN_witness :
  isNaN (parseFloat (str "1.005")) = false /\ no_digit (str "abc") /\
  exists formatted,
    convertToMoneyFormat (str "1.005") sample_world
    = Returned formatted sample_world /\
    convertToMoneyFormat (str "1.005" ++ str "abc") sample_world
    = Returned formatted sample_world.
Proof.
  assert (Hp : isNaN (parseFloat (str "1.005")) = false)
    by (vm_compute; reflexivity).
  assert (Ht : no_digit (str "abc"))
    by (repeat constructor).
  split; [exact Hp|]. split; [exact Ht|].
  exact (proj1 (proj2 (convertToMoneyFormat_throws_iff_NaN sample_world))
           (str "1.005") (str "abc") Hp Ht).
Defined.

(** ** Dates *)

(** C6: getCurrentDate and getCurrentTime do not look at their format
    argument: at the same clock any two formats give the same result, the
    en-US medium date and the en-US medium time of the clock. *)
Theorem current_date_time_ignore_format
    {P : Type} (host : Host) (f1 f2 : jsstring) (w : World P) :
  getCurrentDate host f1 w = getCurrentDate host f2 w /\
  getCurrentTime host f1 w = getCurrentTime host f2 w /\
  getCurrentDate host f1 w
  = Returned (DateTimeFormat_en_US host
                {| dateStyle := Some medium; timeStyle := None;
                   year := None; month := None; day := None |} (clock w)) w /\
  getCurrentTime host f1 w
  = Returned (DateTimeFormat_en_US host
                {| dateStyle := None; timeStyle := Some medium;
                   year := None; month := None; day := None |} (clock w)) w.
Proof. repeat split. Qed.

Lemma replace_month_day_year m1 m2 d1 d2 y1 y2 y3 y4 :
  forallb is_digit [m1; m2; d1; d2; y1; y2; y3; y4] = true ->
  RegExp.replace date_pattern swapped
    [m1; m2; 47%N; d1; d2; 47%N; y1; y2; y3; y4]
  = [d1; d2; 47%N; m1; m2; 47%N; y1; y2; y3; y4].
Proof.
  cbn [forallb]. rewrite !andb_true_iff.
  intros (H1 & H2 & H3 & H4 & H5 & H6 & H7 & H8 & _).
  cbn [RegExp.replace RegExp.match_here date_pattern RegExp.take_digits].
  rewrite H1, H2, H3, H4, H5, H6, H7, H8.
  reflexivity.
Qed.

(** C7, as the code has it: when [new Date(inputDate)] is a valid date the
    call returns its en-US year/month/day rendering with the first
    dd/dd/dddd in it rewritten with the first two groups exchanged, so a
    rendering MM/DD/YYYY comes back as DD/MM/YYYY; neither format argument
    has any effect. *)
Theorem changeDateFormat_swaps_parsed_date
    {P : Type} (host : Host) (inputDate inputFormat outputFormat : jsstring)
    (t : Z) (w : World P) :
  Date_parse host inputDate = Some t ->
  changeDateFormat host inputDate inputFormat outputFormat w
  = Returned (RegExp.replace date_pattern swapped
                (DateTimeFormat_en_US host year_month_day t)) w /\
  (forall m1 m2 d1 d2 y1 y2 y3 y4,
     forallb is_digit [m1; m2; d1; d2; y1; y2; y3; y4] = true ->
     DateTimeFormat_en_US host year_month_day t
     = [m1; m2; 47%N; d1; d2; 47%N; y1; y2; y3; y4] ->
     changeDateFormat host inputDate inputFormat outputFormat w
     = Returned [d1; d2; 47%N; m1; m2; 47%N; y1; y2; y3; y4] w) /\
  (forall inputFormat' outputFormat',
     changeDateFormat host inputDate inputFormat' outputFormat' w
     = changeDateFormat host inputDate inputFormat outputFormat w).
Proof.
  intros Hparse. unfold changeDateFormat. rewrite Hparse.
  split; [reflexivity|]. split; [|reflexivity].
  intros m1 m2 d1 d2 y1 y2 y3 y4 Hd Hr.
  unfold DateTimeFormat_format, bind, ret. rewrite Hr.
  now rewrite replace_month_day_year.
Qed.

(** When [new Date(inputDate)] is an invalid Date the formatter throws. *)
Lemma changeDateFormat_invalid_date
    {P : Type} (host : Host) (inputDate inputFormat outputFormat : jsstring)
    (w : World P) :
  Date_parse host inputDate = None ->
  changeDateFormat host inputDate inputFormat outputFormat w
  = Thrown {| name := str "RangeError"; message := str "Invalid time value" |}
      w.
Proof. intros Hparse. unfold changeDateFormat. now rewrite Hparse. Qed.

Lemma changeDateFormat_swaps_parsed_date_witness :
  Date_parse host (str "2024-03-15") = Some 1710460800000 /\
  changeDateFormat host (str "2024-03-15") (str "YYYY-MM-DD")
    (str "MM/DD/YYYY") sample_world
  = Returned (str "15/03/2024") sample_world.
Proof.
  assert (Hp : Date_parse host (str "2024-03-15") = Some 1710460800000)
    by (vm_compute; reflexivity).
  split; [exact Hp|].
  refine (proj1 (proj2 (changeDateFormat_swaps_parsed_date host
            (str "2024-03-15") (str "YYYY-MM-DD") (str "MM/DD/YYYY")
            1710460800000 sample_world Hp))
            48 51 49 53 50 48 50 52 _ _)%N;
    vm_compute; reflexivity.
Defined.

(** C7 as stated fails: a string that is not a date makes the call throw
    RangeError, so nothing is returned. *)
Lemma changeDateFormat_invalid_date_throws :
  changeDateFormat host (str "abc") (str "YYYY-MM-DD") (str "MM/DD/YYYY")
    sample_world
  = Thrown {| name := str "RangeError"; message := str "Invalid time value" |}
      sample_world /\
  ~ exists v w',
      changeDateFormat host (str "abc") (str "YYYY-MM-DD") (str "MM/DD/YYYY")
        sample_world = Returned v w'.
Proof.
  assert (E : changeDateFormat host (str "abc") (str "YYYY-MM-DD")
                (str "MM/DD/YYYY") sample_world
              = Thrown {| name := str "RangeError";
                          message := str "Invalid time value" |} sample_world)
    by (vm_compute; reflexivity).
  split; [exact E|]. intros (v & w' & Hv). rewrite E in Hv. discriminate.
Qed.

(** A year below 1000 is rendered with fewer than four digits, the pattern
    finds nothing, and the rendering comes back as it is. *)
Lemma changeDateFormat_short_year :
  changeDateFormat host (str "0999-03-15") (str "YYYY-MM-DD")
    (str "DD/MM/YYYY") sample_world
  = Returned (str "03/15/999") sample_world.
Proof. vm_compute. reflexivity. Qed.

(** ** Methods that forward to the page *)

Lemma strict_equal_iff (t1 t2 : option jsstring) :
  strict_equal t1 t2 = true <-> t1 = t2.
Proof.
  destruct t1 as [s1|], t2 as [s2|]; simpl; try (split; congruence).
  rewrite (jsstring_eqb_eq s1 s2). split; congruence.
Qed.

(** C8: when both getText calls return, compareText returns true exactly
    when the two texts are the same sequence of code units; nothing is
    trimmed or case-folded, and an empty text never equals a non-empty
    one. *)
Theorem compareText_exact_equality
    {P : Type} `{PageHandle P} (locator1 locator2 : jsstring)
    (text1 text2 : option jsstring) (w w1 w2 : World P) :
  getText locator1 w = Returned text1 w1 ->
  getText locator2 w1 = Returned text2 w2 ->
  exists b,
    compareText locator1 locator2 w = Returned b w2 /\
    (b = true <-> text1 = text2) /\
    (text1 = Some [] -> text2 <> Some [] -> b = false) /\
    (text2 = Some [] -> text1 <> Some [] -> b = false).
Proof.
  intros H1 H2. exists (strict_equal text1 text2).
  split; [|split; [apply strict_equal_iff|split]].
  - unfold compareText, bind. now rewrite H1, H2.
  - intros -> Hne. destruct (strict_equal (Some []) text2) eqn:E;
      [|reflexivity].
    apply strict_equal_iff in E. congruence.
  - intros -> Hne. destruct (strict_equal text1 (Some [])) eqn:E;
      [|reflexivity].
    apply strict_equal_iff in E. congruence.
Qed.

Lemma compareText_exact_equality_witness :
  getText (str "#title") sample_world
  = Returned (Some (str "Welcome")) sample_world /\
  getText (str "#footer") sample_world
  = Returned (Some (str "welcome ")) sample_world /\
  exists b,
    compareText (str "#title") (str "#footer") sample_world
    = Returned b sample_world /\
    (b = true <-> Some (str "Welcome") = Some (str "welcome ")) /\
    (Some (str "Welcome") = Some [] -> Some (str "welcome ") <> Some [] ->
     b = false) /\
    (Some (str "welcome ") = Some [] -> Some (str "Welcome") <> Some [] ->
     b = false).
Proof.
  assert (H1 : getText (str "#title") sample_world
               = Returned (Some (str "Welcome")) sample_world)
    by (vm_compute; reflexivity).
  assert (H2 : getText (str "#footer") sample_world
               = Returned (Some (str "welcome ")) sample_world)
    by (vm_compute; reflexivity).
  split; [exact H1|]. split; [exact H2|].
  exact (compareText_exact_equality (str "#title") (str "#footer")
           (Some (str "Welcome")) (Some (str "welcome "))
           sample_world sample_world sample_world H1 H2).
Defined.

(** C9: hover and moveToElement are the same function of the locator and the
    world: both resolve the locator and hover over the element. *)
Theorem hover_is_moveToElement
    {P : Type} `{PageHandle P} (locator : jsstring) (w : World P) :
  hover locator w = moveToElement locator w /\
  hover locator w = on_page (locator_hover (page_locator locator)) w.
Proof. split; reflexivity. Qed.

(** C10: on a page whose isVisible keeps its contract, isElementAvailable of
    a locator that matches no element returns false and leaves the world as
    it is; nothing is thrown. *)
Theorem isElementAvailable_absent_is_false
    {P : Type} `{PageHandle P} (locator : jsstring) (w : World P) :
  isVisible_of_absent ->
  matching (page_locator locator) (page w) = O ->
  isElementAvailable locator w = Returned false w.
Proof.
  intros Hcontract Habsent. unfold isElementAvailable, on_page.
  rewrite (Hcontract _ _ Habsent). now destruct w.
Qed.

Lemma document_isVisible_of_absent : isVisible_of_absent (P := Document).
Proof.
  intros l p. cbn [matching locator_isVisible document_page].
  unfold is_visible. now destruct (resolve l p).
Qed.

Lemma isElementAvailable_absent_is_false_witness :
  isVisible_of_absent (P := Document) /\
  matching (page_locator (str "#missing")) (page sample_world) = O /\
  isElementAvailable (str "#missing") sample_world
  = Returned false sample_world.
Proof.
  assert (Ha : matching (page_locator (str "#missing")) (page sample_world)
               = O) by (vm_compute; reflexivity).
  split; [exact document_isVisible_of_absent|]. split; [exact Ha|].
  exact (isElementAvailable_absent_is_false (str "#missing") sample_world
           document_isVisible_of_absent Ha).
Defined.

(** ** The reference host draws from the unit interval *)

Lemma reference_random_in_range : random_in_range host.
Proof.
  intros i.
  change (random_values host i)
    with (nth (i mod 5)%nat random_cycle (S754_zero false)).
  pose proof (Nat.mod_upper_bound i 5 ltac:(discriminate)) as Hi.
  revert Hi. generalize (i mod 5)%nat. intros k Hk.
  do 5 (destruct k as [|k]; [vm_compute; reflexivity|]). lia.
Qed.

Lemma generateRandomValue_length_and_charset_witness :
  random_in_range host /\
  exists v,
    generateRandomValue host 7 (str "numeric") sample_world
    = Returned v (after_draws 7 sample_world) /\
    length v = 7%nat /\ Forall (fun c => is_digit c = true) v.
Proof.
  split; [exact reference_random_in_range|].
  exact (proj1 (generateRandomValue_length_and_charset host 7 sample_world
                  reference_random_in_range)).
Defined.

Lemma generateRandomValue_unknown_kind_witness :
  str "hex" <> str "numeric" /\ str "hex" <> str "alphanumeric" /\
  str "hex" <> str "characters" /\
  generateRandomValue host 4 (str "hex") sample_world
  = Returned [] (after_draws 4 sample_world).
Proof.
  assert (H1 : str "hex" <> str "numeric") by discriminate.
  assert (H2 : str "hex" <> str "alphanumeric") by discriminate.
  assert (H3 : str "hex" <> str "characters") by discriminate.
  repeat (split; [assumption|]).
  exact (generateRandomValue_unknown_kind host 4 (str "hex") sample_world
           H1 H2 H3).
Defined.

(** ** The wrapper on the reference environment *)

Module Examples.

Example parseFloat_tenth :
  parseFloat (str "0.1") = S754_finite false 7205759403792794 (-56).
Proof. vm_compute. reflexivity. Qed.

Example parseFloat_ties_to_even :
  parseFloat (str "9007199254740993") = S754_finite false 4503599627370496 1.
Proof. vm_compute. reflexivity. Qed.

Example parseFloat_exponent_and_rest :
  parseFloat (str "  -1.5e3px") = S754_finite true 6597069766656000 (-42).
Proof. vm_compute. reflexivity. Qed.

Example parseFloat_lone_point : parseFloat (str ".") = S754_nan.
Proof. vm_compute. reflexivity. Qed.

Example currency_groups_and_rounds :
  Currency.toLocaleString (parseFloat (str "-1234567.891"))
  = str "-$1,234,567.89".
Proof. vm_compute. reflexivity. Qed.

Example currency_half_cent :
  Currency.toLocaleString (parseFloat (str "999.995")) = str "$1,000.00".
Proof. vm_compute. reflexivity. Qed.

Example currency_shortest_digits :
  Currency.toLocaleString (parseFloat (str "1.005")) = str "$1.01" /\
  Currency.toLocaleString (parseFloat (str "18446744073709551616"))
  = str "$18,446,744,073,709,552,000.00" /\
  Currency.toLocaleString (parseFloat (str "1.0000000000000001e23"))
  = str "$100,000,000,000,000,010,000,000.00" /\
  Currency.toLocaleString (parseFloat (str "0.1e-1")) = str "$0.01" /\
  Currency.toLocaleString (parseFloat (str "-.5")) = str "-$0.50".
Proof. vm_compute. repeat split. Qed.

Example shortest_decimals :
  Currency.shortest_decimal 4526117625507348 (- 52) = (1005, -3) /\
  Currency.shortest_decimal 7205759403792794 (- 56) = (1, -1) /\
  Currency.shortest_decimal 5404319552844596 (- 54)
  = (30000000000000004, -17) /\
  Currency.shortest_decimal 4503599627370496 12 = (18446744073709552, 3) /\
  Currency.shortest_decimal 1 (- 1074) = (5, -324).
Proof. vm_compute. repeat split. Qed.

Example replace_inside_text :
  RegExp.replace date_pattern swapped (str "on 03/15/2024.")
  = str "on 15/03/2024.".
Proof. vm_compute. reflexivity. Qed.

Example current_date :
  getCurrentDate host (str "MM/DD/YYYY") sample_world
  = Returned (str "Mar 15, 2024") sample_world.
Proof. vm_compute. reflexivity. Qed.

Example seven_digits :
  generateRandomValue host 7 (str "numeric") sample_world
  = Returned (str "0591005") (after_draws 7 sample_world).
Proof. vm_compute. reflexivity. Qed.

Example same_text :
  compareText (str "#title") (str "#heading") sample_world
  = Returned true sample_world.
Proof. vm_compute. reflexivity. Qed.

Example hover_hidden_element_times_out :
  hover (str "#empty") sample_world = Thrown timeout_error sample_world.
Proof. vm_compute. reflexivity. Qed.

Example alert_text_is_empty_then_captured :
  exists w1 w2,
    getTextAndAcceptAlert sample_world = Returned [] w1 /\
    dialog_appears {| dialog_message := str "Saved" |} w1 = Returned tt w2 /\
    cells w2 = [str "Saved"] /\
    accepted (page w2) = [{| dialog_message := str "Saved" |}].
Proof. do 2 eexists. vm_compute. repeat split. Qed.

Example every_listener_runs :
  exists w1 w2 w3 w4,
    getTextAndAcceptAlert sample_session = Returned [] w1 /\
    getTextAndAcceptAlert w1 = Returned [] w2 /\
    getTextAndAcceptAlert w2 = Returned [] w3 /\
    dialog_appears {| dialog_message := str "Saved" |} w3
    = Thrown already_handled w4 /\
    cells w4 = [str "Saved"; str "Saved"; str "Saved"].
Proof. do 4 eexists. vm_compute. repeat split. Qed.

End Examples.

(** * Further properties of the wrapper *)

(** ** Which amounts convertToMoneyFormat accepts *)

Module NotNaN.

Lemma shr_1_nonneg r : 0 <= shr_m r -> 0 <= shr_m (shr_1 r).
Proof.
  destruct r as [m r s]; cbn [shr_m].
  destruct m as [|p|p]; [| |lia]; intros _.
  - reflexivity.
  - destruct p; cbn [shr_1 shr_m]; lia.
Qed.

Lemma iter_shr_1_nonneg p : forall r,
  0 <= shr_m r -> 0 <= shr_m (iter_pos shr_1 p r).
Proof.
  induction p as [p IH|p IH|]; intros r Hr; simpl.
  - apply IH, IH. now apply shr_1_nonneg.
  - now apply IH, IH.
  - now apply shr_1_nonneg.
Qed.

Lemma shr_fexp_nonneg m e l :
  0 <= m -> 0 <= shr_m (fst (shr_fexp prec emax m e l)).
Proof.
  intros Hm. unfold shr_fexp, shr.
  assert (H0 : 0 <= shr_m (shr_record_of_loc m l))
    by (destruct l as [|[]]; exact Hm).
  destruct (fexp prec emax (Zdigits2 m + e) - e); cbn [fst]; auto.
  now apply iter_shr_1_nonneg.
Qed.

Lemma round_nearest_even_nonneg m l : 0 <= m -> 0 <= round_nearest_even m l.
Proof.
  intros Hm. destruct l as [|[]]; cbn [round_nearest_even]; try lia.
  destruct (Z.even m); lia.
Qed.

Lemma binary_round_aux_not_nan s m e l :
  0 <= m -> isNaN (binary_round_aux prec emax s m e l) = false.
Proof.
  intros Hm. unfold binary_round_aux.
  pose proof (shr_fexp_nonneg m e l Hm) as H1.
  destruct (shr_fexp prec emax m e l) as [r1 e1]. cbn [fst] in H1.
  pose proof (shr_fexp_nonneg _ e1 loc_Exact
                (round_nearest_even_nonneg _ (loc_of_shr_record r1) H1)) as H2.
  destruct (shr_fexp prec emax _ e1 loc_Exact) as [r2 e2]. cbn [fst] in H2.
  destruct (shr_m r2) as [|p|p]; [reflexivity| |lia].
  now destruct (e2 <=? emax - prec).
Qed.

Lemma binary_round_not_nan s m e :
  isNaN (binary_round prec emax s m e) = false.
Proof.
  unfold binary_round. destruct (shl_align _ _ _) as [mz ez].
  now apply binary_round_aux_not_nan.
Qed.

Lemma decimal_to_number_not_nan neg m e :
  0 <= m -> isNaN (decimal_to_number neg m e) = false.
Proof.
  intros Hm. unfold decimal_to_number.
  destruct (m =? 0); [reflexivity|].
  destruct (0 <=? e) eqn:He.
  - unfold binary_normalize.
    destruct (cond_Zopp neg (m * 10 ^ e)); [reflexivity| |];
      apply binary_round_not_nan.
  - apply Z.leb_gt in He. unfold SFdiv_core_binary.
    set (m' := match _ with Zpos _ => _ | Z0 => m | Zneg _ => 0 end).
    assert (Hm' : 0 <= m').
    { unfold m'. destruct (_ - _); try lia. apply Z.shiftl_nonneg. exact Hm. }
    assert (Hd : 0 < 10 ^ (- e)) by (apply Z.pow_pos_nonneg; lia).
    pose proof (Z_div_mod m' (10 ^ (- e)) (Z.lt_gt _ _ Hd)) as Hdiv.
    destruct (Z.div_eucl m' (10 ^ (- e))) as [q r].
    apply binary_round_aux_not_nan.
    destruct Hdiv as [Hq Hr]. generalize dependent (10 ^ (- e)). intros; nia.
Qed.

Lemma span_digits_digits s : Forall (fun c => is_digit c = true) (fst (span_digits s)).
Proof.
  induction s as [|c s IH]; simpl; [constructor|].
  destruct (is_digit c) eqn:Hc; [|constructor].
  destruct (span_digits s) as [d t]. cbn [fst] in *. now constructor.
Qed.

Lemma fold_digits_nonneg ds : forall acc,
  0 <= acc -> Forall (fun c => is_digit c = true) ds ->
  0 <= fold_left (fun a c => 10 * a + digit_value c) ds acc.
Proof.
  induction ds as [|c ds IH]; intros acc Hacc Hall; cbn [fold_left];
    [exact Hacc|].
  inversion Hall as [|? ? Hc Hds]; subst. apply IH; [|exact Hds].
  unfold is_digit in Hc. apply andb_prop in Hc as [Hc _].
  apply N.leb_le, N2Z.inj_le in Hc. change (Z.of_N 48) with 48 in Hc.
  unfold digit_value. lia.
Qed.

Lemma digits_value_nonneg ds :
  Forall (fun c => is_digit c = true) ds -> 0 <= digits_value ds.
Proof. apply fold_digits_nonneg. lia. Qed.

End NotNaN.
Import NotNaN.

Module Accepted.

Lemma literal_some_iff r :
  StrUnsignedDecimalLiteral r <> None <->
  (starts_with (str "Infinity") r ||
   match r with
   | c :: r' =>
       is_digit c ||
       (N.eqb c 46 && match r' with d :: _ => is_digit d | [] => false end)
   | [] => false
   end) = true.
Proof.
  unfold StrUnsignedDecimalLiteral.
  destruct (starts_with (str "Infinity") r); [split; [reflexivity|discriminate]|].
  cbn [orb]. destruct r as [|c r]; [now split|].
  cbn [span_digits]. destruct (is_digit c) eqn:Hc.
  - destruct (span_digits r) as [d t].
    destruct (match t with [] => _ | _ => _ end) as [fp r2].
    split; [reflexivity|discriminate].
  - cbn [orb]. destruct (N.eqb c 46); [|now split].
    cbn [andb]. destruct r as [|d r]; [now split|].
    cbn [span_digits]. destruct (is_digit d); [|now split].
    destruct (span_digits r) as [fp r2]. split; [reflexivity|discriminate].
Qed.

Lemma literal_mantissa_nonneg r m e :
  StrUnsignedDecimalLiteral r = Some (LitDecimal m e) -> 0 <= m.
Proof.
  unfold StrUnsignedDecimalLiteral.
  destruct (starts_with (str "Infinity") r); [discriminate|].
  pose proof (span_digits_digits r) as Hip.
  destruct (span_digits r) as [ip r1]. cbn [fst] in Hip.
  assert (Hfp : Forall (fun c => is_digit c = true)
                  (fst match r1 with
                       | [] => ([], [])
                       | c :: r0 => if N.eqb c 46 then span_digits r0
                                    else ([], r1)
                       end)).
  { destruct r1 as [|c r0]; [constructor|].
    destruct (N.eqb c 46); [apply span_digits_digits|constructor]. }
  destruct (match r1 with [] => _ | _ => _ end) as [fp r2]. cbn [fst] in Hfp.
  destruct (ip ++ fp) as [|c ds] eqn:Hds; [discriminate|].
  intros [= <- _]. apply digits_value_nonneg. rewrite <- Hds.
  apply Forall_app. now split.
Qed.

(** parseFloat reads a Number exactly from the strings that, after leading
    white space and one optional sign, begin with a digit, with a point and
    a digit, or with "Infinity". *)
Lemma parseFloat_not_NaN_iff s :
  isNaN (parseFloat s) = false <-> numeric_start s = true.
Proof.
  unfold parseFloat, numeric_start.
  destruct (parse_sign (trim_start s)) as [neg r]. cbn [snd].
  rewrite <- literal_some_iff.
  destruct (StrUnsignedDecimalLiteral r) as [[|m e]|] eqn:Hl.
  - split; [discriminate|reflexivity].
  - split; [discriminate|]. intros _.
    apply decimal_to_number_not_nan. eapply literal_mantissa_nonneg; eauto.
  - split; [discriminate|]. intros Hn. now elim Hn.
Qed.

End Accepted.
Import Accepted.

(** ** What convertToMoneyFormat returns *)

Module Money.

(** convertToMoneyFormat returns exactly for the strings that, after leading
    white space and one optional sign, begin with a digit, with a point and
    a digit, or with "Infinity"; for every other string it throws
    'Invalid amount'. *)
Theorem convertToMoneyFormat_accepts_numeric_start
    {P : Type} (amount : jsstring) (w : World P) :
  ((exists v, convertToMoneyFormat amount w = Returned v w)
   <-> numeric_start amount = true) /\
  (convertToMoneyFormat amount w = Thrown invalid_amount w
   <-> numeric_start amount = false).
Proof.
  rewrite <- parseFloat_not_NaN_iff. unfold convertToMoneyFormat.
  pose proof (parseFloat_not_NaN_iff amount) as Hiff.
  destruct (isNaN (parseFloat amount)).
  - split; split; try discriminate; try reflexivity.
    + intros [v Hv]. discriminate.
    + intros _. destruct (numeric_start amount); [|reflexivity].
      now apply Hiff.
  - split; split; try discriminate; try reflexivity.
    + intros _. eexists. reflexivity.
    + intros Hn. rewrite (proj1 Hiff eq_refl) in Hn. discriminate.
Qed.

Lemma toLocaleString_not_numeric x :
  isNaN x = false -> numeric_start (Currency.toLocaleString x) = false.
Proof.
  destruct x as [s|s| |s m e]; try discriminate; intros _;
    destruct s; reflexivity.
Qed.

(** What convertToMoneyFormat returns is never accepted by
    convertToMoneyFormat: the rendering begins with "$" or "-$". *)
Theorem convertToMoneyFormat_rejects_its_result
    {P : Type} (amount v : jsstring) (w w' : World P) :
  convertToMoneyFormat amount w = Returned v w' ->
  convertToMoneyFormat v w' = Thrown invalid_amount w'.
Proof.
  unfold convertToMoneyFormat at 1.
  destruct (isNaN (parseFloat amount)) eqn:Hn; [discriminate|].
  intros [= <- <-].
  pose proof (toLocaleString_not_numeric _ Hn) as Hs.
  unfold convertToMoneyFormat.
  destruct (isNaN (parseFloat (Currency.toLocaleString (parseFloat amount))))
    eqn:Hv; [reflexivity|].
  apply parseFloat_not_NaN_iff in Hv. congruence.
Qed.

Lemma trim_start_whitespace ws s :
  all_whitespace ws -> trim_start (ws ++ s) = trim_start s.
Proof.
  induction 1 as [|c ws Hc _ IH]; [reflexivity|].
  cbn [app trim_start]. now rewrite Hc.
Qed.

(** White space in front of the amount changes nothing, and an amount of
    white space only (the empty string too) throws. *)
Theorem convertToMoneyFormat_skips_leading_whitespace
    {P : Type} (ws amount : jsstring) (w : World P) :
  all_whitespace ws ->
  convertToMoneyFormat (ws ++ amount) w = convertToMoneyFormat amount w /\
  convertToMoneyFormat ws w = Thrown invalid_amount w.
Proof.
  intros Hws. split.
  - unfold convertToMoneyFormat, parseFloat.
    now rewrite trim_start_whitespace.
  - rewrite <- (app_nil_r ws). unfold convertToMoneyFormat, parseFloat.
    rewrite trim_start_whitespace by exact Hws. reflexivity.
Qed.


Lemma binary_round_aux_sign m e l :
  0 <= m ->
  Currency.toLocaleString (binary_round_aux prec emax true m e l)
  = 45%N :: Currency.toLocaleString (binary_round_aux prec emax false m e l).
Proof.
  intros Hm. pose proof (binary_round_aux_not_nan false m e l Hm) as Hn.
  unfold binary_round_aux in *.
  destruct (shr_fexp prec emax m e l) as [r1 e1].
  destruct (shr_fexp prec emax _ e1 loc_Exact) as [r2 e2].
  destruct (shr_m r2); [reflexivity| |discriminate].
  now destruct (e2 <=? emax - prec).
Qed.

Lemma decimal_to_number_sign m e :
  0 <= m ->
  Currency.toLocaleString (decimal_to_number true m e)
  = 45%N :: Currency.toLocaleString (decimal_to_number false m e).
Proof.
  intros Hm. unfold decimal_to_number.
  destruct (m =? 0) eqn:Hz; [reflexivity|]. apply Z.eqb_neq in Hz.
  destruct (0 <=? e) eqn:He.
  - apply Z.leb_le in He.
    assert (Hp : 0 < m * 10 ^ e)
      by (apply Z.mul_pos_pos; [lia|apply Z.pow_pos_nonneg; lia]).
    cbn [cond_Zopp]. destruct (m * 10 ^ e) as [|p|p]; try lia.
    cbn [Z.opp binary_normalize]. unfold binary_round.
    destruct (shl_align p 0 _) as [mz ez].
    apply binary_round_aux_sign. lia.
  - apply Z.leb_gt in He. unfold SFdiv_core_binary.
    set (m' := match _ with Zpos _ => _ | Z0 => m | Zneg _ => 0 end).
    assert (Hm' : 0 <= m').
    { unfold m'. destruct (_ - _); try lia. apply Z.shiftl_nonneg. exact Hm. }
    assert (Hd : 0 < 10 ^ (- e)) by (apply Z.pow_pos_nonneg; lia).
    pose proof (Z_div_mod m' (10 ^ (- e)) (Z.lt_gt _ _ Hd)) as Hdiv.
    destruct (Z.div_eucl m' (10 ^ (- e))) as [q r].
    apply binary_round_aux_sign.
    destruct Hdiv as [Hq Hr]. generalize dependent (10 ^ (- e)). intros; nia.
Qed.

Lemma digit_not_whitespace c :
  (is_digit c || N.eqb c 46) = true ->
  is_whitespace c = false /\ N.eqb c 45 = false /\ N.eqb c 43 = false.
Proof.
  intros Hc. apply orb_prop in Hc as [Hc|Hc].
  - unfold is_digit in Hc. apply andb_prop in Hc as [H1 H2].
    apply N.leb_le in H1, H2.
    assert (Hcases : In c [48; 49; 50; 51; 52; 53; 54; 55; 56; 57]%N).
    { cbn [In]. change char16 with N in *. lia. }
    cbn [In] in Hcases.
    repeat (destruct Hcases as [<-|Hcases]; [repeat split|]).
    contradiction.
  - apply N.eqb_eq in Hc. subst c. repeat split.
Qed.

(** A minus sign in front of an amount that begins with a digit or a point
    puts "-" in front of the rendering, and nothing else changes; a zero
    keeps its sign. *)
Theorem convertToMoneyFormat_minus_sign
    {P : Type} (c : char16) (rest : jsstring) (w : World P) :
  (is_digit c || N.eqb c 46) = true ->
  convertToMoneyFormat (45%N :: c :: rest) w
  = match convertToMoneyFormat (c :: rest) w with
    | Returned v w' => Returned (45%N :: v) w'
    | Thrown e w' => Thrown e w'
    end.
Proof.
  intros Hc. destruct (digit_not_whitespace c Hc) as (Hw & Hm & Hp).
  unfold convertToMoneyFormat, parseFloat.
  cbn [trim_start]. rewrite Hw.
  change (is_whitespace 45%N) with false. cbv iota.
  cbn [parse_sign]. rewrite Hm, Hp. change (N.eqb 45 45) with true. cbv iota.
  destruct (StrUnsignedDecimalLiteral (c :: rest)) as [[|m e]|] eqn:Hl.
  - reflexivity.
  - pose proof (literal_mantissa_nonneg _ _ _ Hl) as Hm0.
    rewrite !decimal_to_number_not_nan by exact Hm0.
    unfold ret. now rewrite decimal_to_number_sign.
  - reflexivity.
Qed.

End Money.
Import Money.

(** ** Whole amounts *)

Module WholeAmounts.

(** *** The digits of a natural number read back as that number *)

Lemma uint_digits_digits u :
  Forall (fun c => is_digit c = true) (Currency.uint_digits u).
Proof. induction u; simpl; constructor; auto. Qed.

Lemma fold_uint_digits u : forall d',
  Z.of_N (DecimalPos.Unsigned.of_lu (Decimal.revapp u d'))
  = fold_left (fun a c => 10 * a + digit_value c) (Currency.uint_digits u)
      (Z.of_N (DecimalPos.Unsigned.of_lu d')).
Proof.
  induction u; intros d'; cbn [Decimal.revapp Currency.uint_digits fold_left];
    [reflexivity|..];
    rewrite IHu; f_equal; cbn [DecimalPos.Unsigned.of_lu];
    unfold digit_value; lia.
Qed.

Lemma digits_value_decimal n : 0 <= n -> digits_value (Currency.decimal n) = n.
Proof.
  intros Hn. unfold digits_value, Currency.decimal.
  rewrite <- (fold_uint_digits _ Decimal.Nil).
  change (Decimal.revapp ?u Decimal.Nil) with (Decimal.rev u).
  rewrite <- DecimalPos.Unsigned.of_uint_alt.
  change (Pos.of_uint ?u) with (N.of_uint u).
  rewrite DecimalN.Unsigned.of_to. lia.
Qed.

Lemma decimal_nonempty n : Currency.decimal n <> [].
Proof.
  unfold Currency.decimal. destruct (Z.to_N n) as [|p]; [discriminate|].
  cbn [N.to_uint]. pose proof (DecimalPos.Unsigned.to_uint_nonnil p) as Hp.
  destruct (Pos.to_uint p); [contradiction|..]; discriminate.
Qed.

Lemma span_digits_all s :
  Forall (fun c => is_digit c = true) s -> span_digits s = (s, []).
Proof.
  induction 1 as [|c s Hc _ IH]; [reflexivity|].
  cbn [span_digits]. now rewrite Hc, IH.
Qed.

Lemma parseFloat_digits s :
  s <> [] -> Forall (fun c => is_digit c = true) s ->
  parseFloat s = decimal_to_number false (digits_value s) 0.
Proof.
  intros Hne Hall. destruct s as [|c r]; [congruence|].
  inversion Hall as [|? ? Hc Hr]; subst.
  destruct (digit_not_whitespace c) as (Hw & Hm & Hp); [now rewrite Hc|].
  unfold parseFloat. cbn [trim_start]. rewrite Hw.
  cbn [parse_sign]. rewrite Hm, Hp.
  unfold StrUnsignedDecimalLiteral.
  rewrite starts_with_Infinity_digit by now rewrite Hc.
  rewrite (span_digits_all (c :: r) Hall), app_nil_r.
  reflexivity.
Qed.


(** *** Integers below 2^53 are Numbers *)

Lemma iter_xO_value k : forall p,
  Zpos (Pos.iter xO p k) = Zpos p * 2 ^ Zpos k.
Proof.
  induction k as [|k IH] using Pos.peano_ind; intros p.
  - cbn [Pos.iter]. change (2 ^ 1) with 2. lia.
  - rewrite Pos.iter_succ, Pos2Z.inj_succ, Z.pow_succ_r by lia.
    change (Zpos (Pos.iter xO p k)~0) with (2 * Zpos (Pos.iter xO p k)).
    rewrite IH. ring.
Qed.

Lemma iter_xO_digits k : forall p,
  Zpos (digits2_pos (Pos.iter xO p k)) = Zpos (digits2_pos p) + Zpos k.
Proof.
  induction k as [|k IH] using Pos.peano_ind; intros p.
  - cbn [Pos.iter digits2_pos]. lia.
  - rewrite Pos.iter_succ. cbn [digits2_pos]. rewrite !Pos2Z.inj_succ, IH. lia.
Qed.

(** A mantissa of 53 bits with a small exponent is kept as it is. *)
Lemma binary_round_aux_exact s m e :
  Zpos (digits2_pos m) = 53 -> -1074 <= e <= 971 ->
  binary_round_aux prec emax s (Zpos m) e loc_Exact = S754_finite s m e.
Proof.
  intros Hd He.
  assert (Hsh : shr_fexp prec emax (Zpos m) e loc_Exact
                = ({| shr_m := Zpos m; shr_r := false; shr_s := false |}, e)).
  { unfold shr_fexp, shr. cbn [Zdigits2]. rewrite fexp_eq, Hd.
    replace (Z.max (53 + e - 53) (-1074) - e) with 0 by lia. reflexivity. }
  unfold binary_round_aux. rewrite Hsh.
  cbn [shr_m loc_of_shr_record round_nearest_even]. rewrite Hsh.
  cbn [shr_m].
  replace (e <=? emax - prec) with true
    by (symmetry; apply Z.leb_le; unfold emax, prec; lia).
  reflexivity.
Qed.

Lemma of_Z_exact n :
  0 < n < 2 ^ 53 ->
  exists m k, of_Z n = S754_finite false m (- k) /\ 0 <= k <= 52 /\
              Zpos m = n * 2 ^ k.
Proof.
  intros Hn. destruct n as [|p|p]; try lia.
  pose proof (digits2_bounds p) as Hd.
  set (d := Zpos (digits2_pos p)) in *.
  assert (Hd1 : 1 <= d) by (unfold d; lia).
  assert (Hd53 : d <= 53).
  { destruct (Z_le_gt_dec d 53) as [|Hgt]; [assumption|exfalso].
    assert (2 ^ 53 <= 2 ^ (d - 1)) by (apply Z.pow_le_mono_r; lia). lia. }
  unfold of_Z, binary_normalize, binary_round, shl_align.
  fold d. rewrite fexp_eq.
  replace (Z.max (d + 0 - 53) (-1074) - 0) with (d - 53) by lia.
  destruct (d - 53) as [|q|q] eqn:Hq; try lia.
  - exists p, 0. rewrite binary_round_aux_exact; [|fold d; lia|lia].
    repeat split; try lia.
  - exists (Pos.iter xO p q), (Zpos q).
    replace (Z.max (d + 0 - 53) (-1074)) with (- Zpos q) by lia.
    rewrite binary_round_aux_exact.
    + repeat split; try lia. apply iter_xO_value.
    + rewrite iter_xO_digits. fold d. lia.
    + lia.
Qed.

(** The Number of a whole amount below 2^53 is formatted from the integer
    it is. *)
Lemma cents_exact m k n :
  0 <= k -> 0 < n < 2 ^ 53 -> Zpos m = n * 2 ^ k ->
  Currency.cents m (- k) = n * 100.
Proof.
  intros Hk Hn Hm. unfold Currency.cents, Currency.small_integer. rewrite Hm.
  assert (Hp : 0 < 2 ^ k) by (apply Z.pow_pos_nonneg; lia).
  assert (Hlt : (n <? 2 ^ 53) = true) by (apply Z.ltb_lt; lia).
  destruct (0 <=? - k) eqn:Hle.
  - apply Z.leb_le in Hle. replace k with 0 by lia. cbn [Z.opp].
    change (2 ^ 0) with 1. rewrite !Z.mul_1_r, Hlt. reflexivity.
  - rewrite Z.opp_involutive, Z.mod_mul, Z.div_mul by lia.
    rewrite Hlt. reflexivity.
Qed.


(** *** Grouping *)

Lemma grouped_short ds : (length ds <= 3)%nat -> Currency.grouped ds = ds.
Proof.
  destruct ds as [|a [|b [|c [|d ds]]]]; cbn [length]; try reflexivity. lia.
Qed.

Lemma grouped_app a x y z :
  a <> [] ->
  Currency.grouped (a ++ [x; y; z]) = Currency.grouped a ++ 44%N :: [x; y; z].
Proof.
  intros Ha. unfold Currency.grouped.
  rewrite rev_app_distr. cbn [rev app Currency.group_rev].
  destruct (rev a) as [|r0 ra] eqn:Hr.
  - apply (f_equal (@rev _)) in Hr. rewrite rev_involutive in Hr.
    now elim Ha.
  - cbn [rev]. now rewrite <- !app_assoc.
Qed.

Lemma decimal_short n :
  0 <= n < 1000 -> (length (Currency.decimal n) <= 3)%nat.
Proof.
  intros Hn.
  assert (Hall : forallb (fun k => Nat.leb
                   (length (Currency.decimal (Z.of_nat k))) 3)
                   (seq 0 1000) = true) by (vm_compute; reflexivity).
  rewrite forallb_forall in Hall.
  specialize (Hall (Z.to_nat n)). rewrite Z2Nat.id in Hall by lia.
  apply Nat.leb_le, Hall, in_seq. lia.
Qed.

(** A whole amount below 2^53, written in decimal, is rendered as "$", its
    digits in groups of three, and ".00"; below 1000 there is no comma. *)
Theorem convertToMoneyFormat_whole_amount
    {P : Type} (n : Z) (w : World P) :
  0 <= n < 2 ^ 53 ->
  convertToMoneyFormat (Currency.decimal n) w
  = Returned (str "$" ++ Currency.grouped (Currency.decimal n) ++ str ".00") w
  /\ (n < 1000 ->
      convertToMoneyFormat (Currency.decimal n) w
      = Returned (str "$" ++ Currency.decimal n ++ str ".00") w).
Proof.
  intros Hn.
  assert (Hmain : convertToMoneyFormat (Currency.decimal n) w
                  = Returned (str "$" ++ Currency.grouped (Currency.decimal n)
                                ++ str ".00") w).
  { unfold convertToMoneyFormat.
    rewrite parseFloat_digits
      by (apply decimal_nonempty || apply uint_digits_digits).
    rewrite digits_value_decimal by lia.
    destruct (Z.eq_dec n 0) as [->|Hnz]; [reflexivity|].
    unfold decimal_to_number.
    replace (n =? 0) with false by (symmetry; apply Z.eqb_neq; exact Hnz).
    cbn [Z.leb Z.compare cond_Zopp]. change (10 ^ 0) with 1.
    rewrite Z.mul_1_r. fold (of_Z n).
    destruct (of_Z_exact n) as (m & k & -> & Hk & Hm); [lia|].
    cbn [isNaN Currency.toLocaleString Currency.sign_prefix app]. unfold ret.
    rewrite (cents_exact m k n) by lia.
    rewrite Z.div_mul, Z.mod_mul by lia. reflexivity. }
  split; [exact Hmain|].
  intros Hlt. rewrite Hmain. rewrite grouped_short; [reflexivity|].
  apply decimal_short. lia.
Qed.

End WholeAmounts.
Import WholeAmounts.

(** ** The day and month swap of changeDateFormat *)

Module Swap.

Lemma same_class_refl s : Forall2 same_class s s.
Proof. induction s; constructor; auto. now split. Qed.

Lemma same_class_digits c c' :
  is_digit c = true -> is_digit c' = true -> same_class c c'.
Proof. intros H1 H2. split; congruence. Qed.

Lemma take_digits_class n : forall s s',
  Forall2 same_class s s' ->
  match RegExp.take_digits n s, RegExp.take_digits n s' with
  | None, None => True
  | Some (_, t), Some (_, t') => Forall2 same_class t t'
  | _, _ => False
  end.
Proof.
  induction n as [|n IH]; intros s s' Hss; cbn [RegExp.take_digits];
    [exact Hss|].
  destruct Hss as [|c c' r r' [Hc _] Hr]; [exact I|].
  rewrite <- Hc. destruct (is_digit c); [|exact I].
  specialize (IH r r' Hr).
  destruct (RegExp.take_digits n r) as [[d t]|],
           (RegExp.take_digits n r') as [[d' t']|]; auto.
Qed.

Lemma match_date_class : forall s s',
  Forall2 same_class s s' ->
  match RegExp.match_here date_pattern s, RegExp.match_here date_pattern s' with
  | None, None => True
  | Some (_, t), Some (_, t') => Forall2 same_class t t'
  | _, _ => False
  end.
Proof.
  assert (Hunit : forall s s', Forall2 same_class s s' ->
            match s, s' with
            | c :: r, c' :: r' =>
                N.eqb 47 c = N.eqb 47 c' /\ Forall2 same_class r r'
            | [], [] => True
            | _, _ => False
            end).
  { intros s s' [|c c' r r' [Hc Hnd] Hr]; [exact I|]. split; [|exact Hr].
    destruct (is_digit c) eqn:Hd.
    - symmetry in Hc.
      destruct (N.eqb_spec 47 c) as [<-|_]; [discriminate|].
      destruct (N.eqb_spec 47 c') as [<-|_]; [discriminate|reflexivity].
    - now rewrite (Hnd eq_refl). }
  intros s s' H0. unfold date_pattern. cbn [RegExp.match_here].
  pose proof (take_digits_class 2 s s' H0) as H1.
  destruct (RegExp.take_digits 2 s) as [[g1 t1]|],
           (RegExp.take_digits 2 s') as [[g1' t1']|]; try contradiction; auto.
  pose proof (Hunit t1 t1' H1) as H2.
  destruct t1 as [|u1 t2], t1' as [|u1' t2']; try contradiction; auto.
  destruct H2 as [Hu H2]. rewrite <- Hu. destruct (N.eqb 47 u1); auto.
  pose proof (take_digits_class 2 t2 t2' H2) as H3.
  destruct (RegExp.take_digits 2 t2) as [[g2 t3]|],
           (RegExp.take_digits 2 t2') as [[g2' t3']|]; try contradiction; auto.
  pose proof (Hunit t3 t3' H3) as H4.
  destruct t3 as [|u2 t4], t3' as [|u2' t4']; try contradiction; auto.
  destruct H4 as [Hu2 H4]. rewrite <- Hu2. destruct (N.eqb 47 u2); auto.
  pose proof (take_digits_class 4 t4 t4' H4) as H5.
  destruct (RegExp.take_digits 4 t4) as [[g3 t5]|],
           (RegExp.take_digits 4 t4') as [[g3' t5']|]; try contradiction; auto.
Qed.

Lemma take_digits_spec n : forall s d t,
  RegExp.take_digits n s = Some (d, t) ->
  s = d ++ t /\ length d = n /\ Forall (fun c => is_digit c = true) d.
Proof.
  induction n as [|n IH]; intros s d t; cbn [RegExp.take_digits].
  - intros [= <- <-]. repeat split. constructor.
  - destruct s as [|c r]; [discriminate|].
    destruct (is_digit c) eqn:Hc; [|discriminate].
    destruct (RegExp.take_digits n r) as [[d' t']|] eqn:Hr; [|discriminate].
    intros [= <- <-]. destruct (IH r d' t' Hr) as (-> & Hl & Hd).
    repeat split; [cbn [length]; lia|now constructor].
Qed.

(** What a match of the date pattern looks like. *)
Lemma match_date s caps rest :
  RegExp.match_here date_pattern s = Some (caps, rest) ->
  exists m1 m2 d1 d2 y1 y2 y3 y4,
    s = [m1; m2; 47%N; d1; d2; 47%N; y1; y2; y3; y4] ++ rest /\
    caps = [[m1; m2]; [d1; d2]; [y1; y2; y3; y4]] /\
    forallb is_digit [m1; m2; d1; d2; y1; y2; y3; y4] = true.
Proof.
  unfold date_pattern. cbn [RegExp.match_here].
  destruct (RegExp.take_digits 2 s) as [[g1 t1]|] eqn:E1; [|discriminate].
  destruct t1 as [|u1 t2]; [discriminate|].
  destruct (N.eqb_spec 47 u1) as [<-|_]; [|discriminate].
  destruct (RegExp.take_digits 2 t2) as [[g2 t3]|] eqn:E2; [|discriminate].
  destruct t3 as [|u2 t4]; [discriminate|].
  destruct (N.eqb_spec 47 u2) as [<-|_]; [|discriminate].
  destruct (RegExp.take_digits 4 t4) as [[g3 t5]|] eqn:E3; [|discriminate].
  intros [= <- <-].
  apply take_digits_spec in E1 as (-> & L1 & D1).
  apply take_digits_spec in E2 as (-> & L2 & D2).
  apply take_digits_spec in E3 as (-> & L3 & D3).
  destruct g1 as [|m1 [|m2 [|]]]; try discriminate.
  destruct g2 as [|d1 [|d2 [|]]]; try discriminate.
  destruct g3 as [|y1 [|y2 [|y3 [|y4 [|]]]]]; try discriminate.
  exists m1, m2, d1, d2, y1, y2, y3, y4.
  repeat split.
  inversion D1 as [|? ? A1 D1']; inversion D1' as [|? ? A2 _]; subst.
  inversion D2 as [|? ? B1 D2']; inversion D2' as [|? ? B2 _]; subst.
  inversion D3 as [|? ? C1 D3']; inversion D3' as [|? ? C2 D3''];
    inversion D3'' as [|? ? C3 D3''']; inversion D3''' as [|? ? C4 _]; subst.
  cbn [forallb]. now rewrite A1, A2, B1, B2, C1, C2, C3, C4.
Qed.

Lemma match_date_digits m1 m2 d1 d2 y1 y2 y3 y4 rest :
  forallb is_digit [m1; m2; d1; d2; y1; y2; y3; y4] = true ->
  RegExp.match_here date_pattern
    ([m1; m2; 47%N; d1; d2; 47%N; y1; y2; y3; y4] ++ rest)
  = Some ([[m1; m2]; [d1; d2]; [y1; y2; y3; y4]], rest).
Proof.
  cbn [forallb]. rewrite !andb_true_iff.
  intros (H1 & H2 & H3 & H4 & H5 & H6 & H7 & H8 & _).
  cbn [RegExp.match_here date_pattern RegExp.take_digits app].
  now rewrite H1, H2, H3, H4, H5, H6, H7, H8.
Qed.

Lemma replace_cons c r :
  RegExp.match_here date_pattern (c :: r) = None ->
  RegExp.replace date_pattern swapped (c :: r)
  = c :: RegExp.replace date_pattern swapped r.
Proof. intros Hn. cbn [RegExp.replace]. now rewrite Hn. Qed.

Lemma replace_class s :
  Forall2 same_class s (RegExp.replace date_pattern swapped s).
Proof.
  induction s as [|c r IH].
  - cbn. constructor.
  - destruct (RegExp.match_here date_pattern (c :: r)) as [[caps rest]|] eqn:Hm.
    + cbn [RegExp.replace]. rewrite Hm.
      destruct (match_date _ _ _ Hm)
        as (m1 & m2 & d1 & d2 & y1 & y2 & y3 & y4 & -> & -> & Hd).
      cbn [forallb] in Hd. rewrite !andb_true_iff in Hd.
      destruct Hd as (H1 & H2 & H3 & H4 & H5 & H6 & H7 & H8 & _).
      cbn [RegExp.expand swapped flat_map nth Nat.sub app str map
           list_ascii_of_string].
      repeat (constructor; [first [apply same_class_digits; assumption
                                  | split; reflexivity]|]).
      apply same_class_refl.
    + rewrite replace_cons by exact Hm. constructor; [now split|exact IH].
Qed.


Lemma replace_eq p t s :
  RegExp.replace p t s
  = match RegExp.match_here p s with
    | Some (caps, rest) => RegExp.expand t caps ++ rest
    | None => match s with
              | [] => []
              | c :: r => c :: RegExp.replace p t r
              end
    end.
Proof. destruct s; reflexivity. Qed.

Lemma replace_date m1 m2 d1 d2 y1 y2 y3 y4 rest :
  forallb is_digit [m1; m2; d1; d2; y1; y2; y3; y4] = true ->
  RegExp.replace date_pattern swapped
    (m1 :: m2 :: 47%N :: d1 :: d2 :: 47%N :: y1 :: y2 :: y3 :: y4 :: rest)
  = d1 :: d2 :: 47%N :: m1 :: m2 :: 47%N :: y1 :: y2 :: y3 :: y4 :: rest.
Proof.
  intros Hd. pose proof (match_date_digits _ _ _ _ _ _ _ _ rest Hd) as Hm.
  cbn [app] in Hm. rewrite replace_eq.
  match goal with |- match ?x with _ => _ end = _ => replace x with
    (Some ([[m1; m2]; [d1; d2]; [y1; y2; y3; y4]], rest)) by (symmetry; exact Hm) end.
  reflexivity.
Qed.

Lemma replace_involutive s :
  RegExp.replace date_pattern swapped (RegExp.replace date_pattern swapped s)
  = s.
Proof.
  induction s as [|c r IH]; [reflexivity|].
  destruct (RegExp.match_here date_pattern (c :: r)) as [[caps rest]|] eqn:Hm.
  - destruct (match_date _ _ _ Hm)
      as (m1 & m2 & d1 & d2 & y1 & y2 & y3 & y4 & Hs & _ & Hd).
    rewrite Hs. cbn [app].
    assert (Hd' : forallb is_digit [d1; d2; m1; m2; y1; y2; y3; y4] = true).
    { cbn [forallb] in *. rewrite !andb_true_iff in *. tauto. }
    transitivity (RegExp.replace date_pattern swapped
                    (d1 :: d2 :: 47%N :: m1 :: m2 :: 47%N
                        :: y1 :: y2 :: y3 :: y4 :: rest)).
    + f_equal. apply replace_date, Hd.
    + apply replace_date, Hd'.
  - rewrite replace_cons by exact Hm.
    assert (Hn : RegExp.match_here date_pattern
                   (c :: RegExp.replace date_pattern swapped r) = None).
    { pose proof (match_date_class (c :: r)
                    (c :: RegExp.replace date_pattern swapped r)) as Hc.
      rewrite Hm in Hc.
      destruct (RegExp.match_here date_pattern
                  (c :: RegExp.replace date_pattern swapped r));
        [|reflexivity].
      exfalso. apply Hc. constructor; [now split|apply replace_class]. }
    rewrite replace_cons by exact Hn. now rewrite IH.
Qed.

End Swap.
Import Swap.

(** What changeDateFormat returns differs from the en-US rendering only in
    digits: it has the same length, the same units wherever the rendering
    has no digit, and the same replace applied to it gives the rendering
    back.  The world is left as it was. *)
Theorem changeDateFormat_swap_is_undone
    {P : Type} (host : Host) (inputDate inputFormat outputFormat v : jsstring)
    (w w' : World P) :
  changeDateFormat host inputDate inputFormat outputFormat w = Returned v w' ->
  exists t,
    Date_parse host inputDate = Some t /\
    RegExp.replace date_pattern swapped v
    = DateTimeFormat_en_US host year_month_day t /\
    length v = length (DateTimeFormat_en_US host year_month_day t) /\
    Forall2 same_class (DateTimeFormat_en_US host year_month_day t) v /\
    w' = w.
Proof.
  unfold changeDateFormat, DateTimeFormat_format, bind, ret, throw.
  destruct (Date_parse host inputDate) as [t|]; [|discriminate].
  intros [= <- <-]. exists t. split; [reflexivity|].
  split; [apply replace_involutive|].
  pose proof (replace_class (DateTimeFormat_en_US host year_month_day t))
    as Hc.
  repeat split; [|exact Hc].
  symmetry. eapply Forall2_length; eauto.
Qed.

Lemma changeDateFormat_swap_is_undone_witness :
  changeDateFormat host (str "2024-03-15") (str "YYYY-MM-DD")
    (str "MM/DD/YYYY") sample_world
  = Returned (str "15/03/2024") sample_world /\
  exists t,
    Date_parse host (str "2024-03-15") = Some t /\
    RegExp.replace date_pattern swapped (str "15/03/2024")
    = DateTimeFormat_en_US host year_month_day t /\
    length (str "15/03/2024")
    = length (DateTimeFormat_en_US host year_month_day t) /\
    Forall2 same_class (DateTimeFormat_en_US host year_month_day t)
      (str "15/03/2024") /\
    sample_world = sample_world.
Proof.
  assert (Hc : changeDateFormat host (str "2024-03-15") (str "YYYY-MM-DD")
                 (str "MM/DD/YYYY") sample_world
               = Returned (str "15/03/2024") sample_world)
    by (vm_compute; reflexivity).
  split; [exact Hc|].
  exact (changeDateFormat_swap_is_undone host _ _ _ _ _ _ Hc).
Defined.

(** ** generateRandomValue without the contract of Math.random() *)

Section RandomValueMore.

Context {P : Type}.
Variable host : Host.

Lemma charAt_cases s x :
  charAt s x = [] \/ exists c, charAt s x = [c] /\ In c s.
Proof.
  unfold charAt. destruct (ToIntegerOrInfinity x) as [p| |]; auto.
  destruct ((p <? 0) || (Z.of_nat (length s) <=? p)); auto.
  destruct (nth_error s (Z.to_nat p)) as [c|] eqn:Hc; auto.
  right. exists c. split; [reflexivity|]. eapply nth_error_In; eauto.
Qed.

Lemma getRandomChar_step characters (w : World P) :
  getRandomChar host characters w
  = Returned (charAt characters
                (floor (mul (random_values host (draws w))
                          (str_length characters))))
      (after_draws 1 w).
Proof. reflexivity. Qed.

Lemma random_loop_any (characters : jsstring) :
  forall n randomValue (w : World P),
  exists v,
    random_loop host n characters randomValue w
      = Returned (randomValue ++ v) (after_draws n w) /\
    (length v <= n)%nat /\ Forall (fun c => In c characters) v.
Proof.
  induction n as [|n IH]; intros acc w.
  - exists []. rewrite app_nil_r, after_draws_0.
    split; [reflexivity|split; [cbn [length]; lia|constructor]].
  - cbn [random_loop]. unfold bind at 1. rewrite getRandomChar_step.
    destruct (IH (acc ++ charAt characters
                          (floor (mul (random_values host (draws w))
                                    (str_length characters))))
                 (after_draws 1 w)) as (v & Hv & Hl & Hall).
    rewrite Hv, after_draws_S, <- app_assoc.
    eexists. split; [reflexivity|].
    destruct (charAt_cases characters
                (floor (mul (random_values host (draws w))
                          (str_length characters))))
      as [->|(c & -> & Hin)].
    + split; [cbn [app]; lia|exact Hall].
    + split; [cbn [app length]; lia|now constructor].
Qed.

Lemma random_loop_prefix (characters : jsstring) :
  forall n randomValue (w : World P),
    random_loop host n characters randomValue w
    = match random_loop host n characters [] w with
      | Returned v w' => Returned (randomValue ++ v) w'
      | Thrown e w' => Thrown e w'
      end.
Proof.
  induction n as [|n IH]; intros acc w.
  - cbn [random_loop]. unfold ret. now rewrite app_nil_r.
  - cbn [random_loop]. unfold bind. rewrite getRandomChar_step.
    rewrite IH. rewrite (IH ([] ++ _)).
    destruct (random_loop host n characters [] (after_draws 1 w));
      [|reflexivity].
    cbn [app]. now rewrite app_assoc.
Qed.

Lemma random_loop_add (characters : jsstring) :
  forall n m randomValue (w : World P),
    random_loop host (n + m) characters randomValue w
    = match random_loop host n characters randomValue w with
      | Returned v w' => random_loop host m characters v w'
      | Thrown e w' => Thrown e w'
      end.
Proof.
  induction n as [|n IH]; intros m acc w; [reflexivity|].
  cbn [Nat.add random_loop]. unfold bind. rewrite getRandomChar_step.
  apply IH.
Qed.

End RandomValueMore.

(** Whatever Math.random() returns (a mocked value outside the unit
    interval, NaN), generateRandomValue returns after [n] draws a string of
    at most [n] units, all from the character set of its kind; it never
    throws. *)
Theorem generateRandomValue_never_longer
    {P : Type} (host : Host) (n : nat) (kind : jsstring) (w : World P) :
  exists v,
    generateRandomValue host n kind w = Returned v (after_draws n w) /\
    (length v <= n)%nat /\
    (kind = str "numeric" -> Forall (fun c => is_digit c = true) v) /\
    (kind = str "alphanumeric" ->
     Forall (fun c => is_alphanumeric c = true) v) /\
    (kind = str "characters" -> Forall (fun c => is_special c = true) v).
Proof.
  unfold generateRandomValue.
  match goal with |- context [random_loop host n ?cs []] =>
    destruct (random_loop_any host cs n [] w) as (v & Hv & Hl & Hall) end.
  exists v. split; [exact Hv|]. split; [exact Hl|].
  repeat split; intros ->; cbn [JSString.eqb] in Hall;
    (eapply Forall_from_charset; [|exact Hall]); reflexivity.
Qed.

(** generateRandomValue(n + m) is generateRandomValue(n) followed by what
    generateRandomValue(m) returns from the world the first call leaves. *)
Theorem generateRandomValue_splits
    {P : Type} (host : Host) (n m : nat) (kind : jsstring) (w : World P) :
  exists v1 v2,
    generateRandomValue host n kind w = Returned v1 (after_draws n w) /\
    generateRandomValue host m kind (after_draws n w)
    = Returned v2 (after_draws (n + m) w) /\
    generateRandomValue host (n + m) kind w
    = Returned (v1 ++ v2) (after_draws (n + m) w).
Proof.
  unfold generateRandomValue.
  match goal with |- context [random_loop host n ?cs []] => set (chars := cs) end.
  destruct (random_loop_any host chars n [] w) as (v1 & Hv1 & _).
  destruct (random_loop_any host chars m [] (after_draws n w))
    as (v2 & Hv2 & _).
  assert (Hw : after_draws m (after_draws n w) = after_draws (n + m) w).
  { unfold after_draws; cbn [page listeners cells clock draws]. f_equal. lia. }
  rewrite Hw in Hv2. cbn [app] in Hv1, Hv2.
  exists v1, v2. split; [exact Hv1|]. split; [exact Hv2|].
  rewrite random_loop_add, Hv1, random_loop_prefix, Hv2. reflexivity.
Qed.

(** ** Listeners pile up *)

Section Listeners.

Context {P : Type} `{PageHandle P}.

Lemma update_app {A} (l : list A) x r v :
  update (l ++ x :: r) (length l) v = l ++ v :: r.
Proof. induction l as [|y l IH]; cbn [app length update]; congruence. Qed.

Lemma update_twice {A} (l : list A) a b v v' :
  update (update ((l ++ [a]) ++ [b]) (length l) v) (length (l ++ [a])) v'
  = l ++ [v; v'].
Proof. induction l as [|y l IH]; cbn [app length update]; congruence. Qed.

Lemma getTextAndAcceptAlert_step (w : World P) :
  getTextAndAcceptAlert w
  = Returned []
      {| page := page w;
         listeners :=
           listeners w ++ [(str "dialog", CaptureAndAccept (length (cells w)))];
         cells := cells w ++ [[]];
         clock := clock w;
         draws := draws w |}.
Proof.
  unfold getTextAndAcceptAlert, bind, let_cell, page_on, read_cell.
  cbn [listeners cells page clock draws].
  now rewrite app_nth2, Nat.sub_diag by lia.
Qed.

End Listeners.

(** Each call adds a listener and none is removed: after two calls on a
    page without listeners one dialog is accepted twice, and when the page
    refuses the second accept, handling the dialog throws that error. *)
Theorem getTextAndAcceptAlert_twice_accepts_twice
    {P : Type} `{PageHandle P} (w : World P) (dialog : Dialog)
    (p1 p2 : P) (e : JSError) :
  listeners w = [] ->
  dialog_accept dialog (page w) = Returned tt p1 ->
  exists v1 v2 w1 w2,
    getTextAndAcceptAlert w = Returned v1 w1 /\
    getTextAndAcceptAlert w1 = Returned v2 w2 /\
    length (listeners w2) = 2%nat /\
    (dialog_accept dialog p1 = Returned tt p2 ->
     dialog_appears dialog w2
     = Returned tt
         {| page := p2; listeners := listeners w2;
            cells := cells w ++ [dialog_message dialog; dialog_message dialog];
            clock := clock w; draws := draws w |}) /\
    (dialog_accept dialog p1 = Thrown e p2 ->
     dialog_appears dialog w2
     = Thrown e
         {| page := p2; listeners := listeners w2;
            cells := cells w ++ [dialog_message dialog; dialog_message dialog];
            clock := clock w; draws := draws w |}).
Proof.
  intros Hl Ha.
  do 4 eexists. split; [apply getTextAndAcceptAlert_step|].
  split; [apply getTextAndAcceptAlert_step|].
  cbn [listeners cells page clock draws]. rewrite Hl. cbn [app length].
  split; [reflexivity|].
  split; intros Hsecond;
    unfold dialog_appears; cbn [listeners emit];
    change (JSString.eqb (str "dialog") (str "dialog")) with true; cbv iota;
    unfold unawaited, run_listener, bind, write_cell, on_page, ret;
    cbn [page listeners cells clock draws];
    rewrite Ha; cbn [page listeners cells clock draws];
    rewrite Hsecond, update_twice; reflexivity.
Qed.

Lemma getTextAndAcceptAlert_twice_accepts_twice_witness :
  let dialog := {| dialog_message := str "Saved" |} in
  let p1 := {| document :=
                 {| elements := elements sample_document;
                    pointer_over := None;
                    accepted := [dialog] |};
               actions := [] |} in
  listeners sample_session = [] /\
  dialog_accept dialog (page sample_session) = Returned tt p1 /\
  dialog_accept dialog p1 = Thrown already_handled p1 /\
  exists v1 v2 w1 w2,
    getTextAndAcceptAlert sample_session = Returned v1 w1 /\
    getTextAndAcceptAlert w1 = Returned v2 w2 /\
    dialog_appears dialog w2
    = Thrown already_handled
        {| page := p1; listeners := listeners w2;
           cells := [str "Saved"; str "Saved"];
           clock := clock sample_session; draws := draws sample_session |}.
Proof.
  intros dialog p1.
  assert (Hl : listeners sample_session = []) by reflexivity.
  assert (H1 : dialog_accept dialog (page sample_session) = Returned tt p1)
    by (vm_compute; reflexivity).
  assert (H2 : dialog_accept dialog p1 = Thrown already_handled p1)
    by (vm_compute; reflexivity).
  split; [exact Hl|]. split; [exact H1|]. split; [exact H2|].
  destruct (getTextAndAcceptAlert_twice_accepts_twice sample_session dialog
              p1 p1 already_handled Hl H1)
    as (v1 & v2 & w1 & w2 & Hc1 & Hc2 & _ & _ & Hthrow).
  exists v1, v2, w1, w2. split; [exact Hc1|]. split; [exact Hc2|].
  exact (Hthrow H2).
Defined.

Lemma late_dialog_is_captured_witness :
  let dialog := {| dialog_message := str "Saved" |} in
  exists w1 w2,
    getTextAndAcceptAlert sample_world = Returned [] w1 /\
    dialog_appears dialog w1 = Returned tt w2 /\
    [] = @nil char16 /\
    nth (length (cells sample_world)) (cells w2) [] = dialog_message dialog.
Proof.
  intros dialog.
  eexists. eexists.
  assert (H1 : getTextAndAcceptAlert sample_world
               = Returned []
                   {| page := sample_document;
                      listeners := [(str "dialog", CaptureAndAccept 0)];
                      cells := [[]]; clock := clock sample_world;
                      draws := 0 |}) by (vm_compute; reflexivity).
  assert (H2 : dialog_appears dialog
                 {| page := sample_document;
                    listeners := [(str "dialog", CaptureAndAccept 0)];
                    cells := [[]]; clock := clock sample_world; draws := 0 |}
               = Returned tt
                   {| page := {| elements := elements sample_document;
                                 pointer_over := None;
                                 accepted := [dialog] |};
                      listeners := [(str "dialog", CaptureAndAccept 0)];
                      cells := [str "Saved"]; clock := clock sample_world;
                      draws := 0 |}) by (vm_compute; reflexivity).
  split; [exact H1|]. split; [exact H2|].
  exact (late_dialog_is_captured _ _ _ _ _ H1 H2).
Defined.

(** ** compareText when reading fails, and in the other order *)

Lemma jsstring_eqb_sym (s1 s2 : jsstring) :
  JSString.eqb s1 s2 = JSString.eqb s2 s1.
Proof.
  revert s2. induction s1 as [|c1 r1 IH]; intros [|c2 r2]; cbn [JSString.eqb];
    try reflexivity.
  now rewrite N.eqb_sym, IH.
Qed.

(** compareText throws what the first failing getText throws; after a
    failure of the first locator the second is not read. *)
Theorem compareText_propagates_failure
    {P : Type} `{PageHandle P} (locator1 locator2 : jsstring)
    (w : World P) :
  (forall e w1,
     getText locator1 w = Thrown e w1 ->
     compareText locator1 locator2 w = Thrown e w1) /\
  (forall text1 w1 e w2,
     getText locator1 w = Returned text1 w1 ->
     getText locator2 w1 = Thrown e w2 ->
     compareText locator1 locator2 w = Thrown e w2).
Proof.
  split.
  - intros e w1 H1. unfold compareText, bind. now rewrite H1.
  - intros text1 w1 e w2 H1 H2. unfold compareText, bind. now rewrite H1, H2.
Qed.

Lemma compareText_propagates_failure_witness :
  getText (str "#missing") sample_world = Thrown timeout_error sample_world /\
  compareText (str "#missing") (str "#title") sample_world
  = Thrown timeout_error sample_world.
Proof.
  assert (H1 : getText (str "#missing") sample_world
               = Thrown timeout_error sample_world)
    by (vm_compute; reflexivity).
  split; [exact H1|].
  exact (proj1 (compareText_propagates_failure (str "#missing") (str "#title")
                  sample_world) _ _ H1).
Defined.

(** When reading the two texts leaves the world as it is, compareText gives
    the same answer for both orders of the locators, and true for a locator
    against itself. *)
Theorem compareText_symmetric
    {P : Type} `{PageHandle P} (locator1 locator2 : jsstring)
    (text1 text2 : option jsstring) (w : World P) :
  getText locator1 w = Returned text1 w ->
  getText locator2 w = Returned text2 w ->
  compareText locator1 locator2 w = compareText locator2 locator1 w /\
  compareText locator1 locator1 w = Returned true w.
Proof.
  intros H1 H2. unfold compareText, bind. rewrite H1, H2, H1. unfold ret.
  split.
  - f_equal. destruct text1, text2; cbn [strict_equal]; try reflexivity.
    apply jsstring_eqb_sym.
  - f_equal. destruct text1 as [s|]; cbn [strict_equal]; [|reflexivity].
    now apply jsstring_eqb_eq.
Qed.

Lemma compareText_symmetric_witness :
  getText (str "#title") sample_world
  = Returned (Some (str "Welcome")) sample_world /\
  getText (str "#footer") sample_world
  = Returned (Some (str "welcome ")) sample_world /\
  compareText (str "#title") (str "#footer") sample_world
  = compareText (str "#footer") (str "#title") sample_world /\
  compareText (str "#title") (str "#title") sample_world
  = Returned true sample_world.
Proof.
  assert (H1 : getText (str "#title") sample_world
               = Returned (Some (str "Welcome")) sample_world)
    by (vm_compute; reflexivity).
  assert (H2 : getText (str "#footer") sample_world
               = Returned (Some (str "welcome ")) sample_world)
    by (vm_compute; reflexivity).
  split; [exact H1|]. split; [exact H2|].
  exact (compareText_symmetric _ _ _ _ _ H1 H2).
Defined.

(** ** Alerts, clicks and suggestions *)

(** After its wait acceptAlert clicks the "OK" element when isVisible says
    it is visible, and presses Enter, clicking nothing, when no element
    matches "text=OK". *)
Theorem acceptAlert_button_or_keyboard
    {P : Type} `{PageHandle P} `{PageActions P} (w : World P) (p1 p2 : P) :
  isVisible_of_absent ->
  page_waitForTimeout 500 (page w) = Returned tt p1 ->
  (matching (page_locator (str "text=OK")) p1 = O ->
   acceptAlert w
   = on_page (keyboard_press (str "Enter")) (with_page w p1)) /\
  (locator_isVisible (page_locator (str "text=OK")) p1 = Returned true p2 ->
   acceptAlert w
   = on_page (locator_click (page_locator (str "text=OK")))
       (with_page w p2)).
Proof.
  intros Hcontract Hwait.
  split; [intros Habsent|intros Hvisible];
    unfold acceptAlert, bind, on_page at 1;
    rewrite Hwait; unfold on_page at 1; cbn [page].
  - rewrite (Hcontract _ _ Habsent). reflexivity.
  - rewrite Hvisible. reflexivity.
Qed.

(** After its wait dismissAlert clicks the "Cancel" element when isVisible
    says it is visible, and presses Escape, clicking nothing, when no
    element matches "text=Cancel". *)
Theorem dismissAlert_button_or_keyboard
    {P : Type} `{PageHandle P} `{PageActions P} (w : World P) (p1 p2 : P) :
  isVisible_of_absent ->
  page_waitForTimeout 500 (page w) = Returned tt p1 ->
  (matching (page_locator (str "text=Cancel")) p1 = O ->
   dismissAlert w
   = on_page (keyboard_press (str "Escape")) (with_page w p1)) /\
  (locator_isVisible (page_locator (str "text=Cancel")) p1
   = Returned true p2 ->
   dismissAlert w
   = on_page (locator_click (page_locator (str "text=Cancel")))
       (with_page w p2)).
Proof.
  intros Hcontract Hwait.
  split; [intros Habsent|intros Hvisible];
    unfold dismissAlert, bind, on_page at 1;
    rewrite Hwait; unfold on_page at 1; cbn [page].
  - rewrite (Hcontract _ _ Habsent). reflexivity.
  - rewrite Hvisible. reflexivity.
Qed.

(** selectAutoSuggestion presses Enter only after the suggestion has
    appeared: when the wait for "text=" followed by the suggestion fails,
    the call throws that error with the text typed and no key pressed. *)
Theorem selectAutoSuggestion_needs_suggestion
    {P : Type} `{PageHandle P} `{PageActions P}
    (locator suggestionText : jsstring) (w : World P) (p1 p2 : P)
    (e : JSError) :
  locator_type (page_locator locator) suggestionText (page w)
  = Returned tt p1 ->
  page_waitForSelector (str "text=" ++ suggestionText) p1 = Thrown e p2 ->
  selectAutoSuggestion locator suggestionText w = Thrown e (with_page w p2).
Proof.
  intros Htype Hwait.
  unfold selectAutoSuggestion, bind, on_page at 1. rewrite Htype.
  unfold on_page at 1. cbn [page]. now rewrite Hwait.
Qed.

(** waitAndClick clicks only after the wait: when the element does not
    become visible the call throws the wait's error and the page is as the
    wait left it; otherwise the outcome is that of the click. *)
Theorem waitAndClick_needs_visible
    {P : Type} `{PageHandle P} `{PageActions P}
    (locator : jsstring) (w : World P) (p1 : P) (e : JSError) :
  (locator_waitFor_visible (page_locator locator) (page w) = Thrown e p1 ->
   waitAndClick locator w = Thrown e (with_page w p1)) /\
  (locator_waitFor_visible (page_locator locator) (page w) = Returned tt p1 ->
   waitAndClick locator w
   = on_page (locator_click (page_locator locator)) (with_page w p1)).
Proof.
  split; intros Hwait; unfold waitAndClick, bind, on_page at 1;
    now rewrite Hwait.
Qed.

(** ** The further properties on the reference environment *)

Lemma convertToMoneyFormat_rejects_its_result_witness :
  convertToMoneyFormat (str "1000") sample_world
  = Returned (str "$1,000.00") sample_world /\
  convertToMoneyFormat (str "$1,000.00") sample_world
  = Thrown invalid_amount sample_world.
Proof.
  assert (H1 : convertToMoneyFormat (str "1000") sample_world
               = Returned (str "$1,000.00") sample_world)
    by (vm_compute; reflexivity).
  split; [exact H1|].
  exact (convertToMoneyFormat_rejects_its_result _ _ _ _ H1).
Defined.

Lemma convertToMoneyFormat_skips_leading_whitespace_witness :
  all_whitespace [32; 9; 160]%N /\
  convertToMoneyFormat ([32; 9; 160]%N ++ str "2.5") sample_world
  = convertToMoneyFormat (str "2.5") sample_world /\
  convertToMoneyFormat [32; 9; 160]%N sample_world
  = Thrown invalid_amount sample_world.
Proof.
  assert (Hws : all_whitespace [32; 9; 160]%N) by (repeat constructor).
  split; [exact Hws|].
  exact (convertToMoneyFormat_skips_leading_whitespace _ (str "2.5")
           sample_world Hws).
Defined.

Lemma convertToMoneyFormat_minus_sign_witness :
  (is_digit 49%N || N.eqb 49 46) = true /\
  convertToMoneyFormat (45 :: 49 :: str "999.5")%N sample_world
  = match convertToMoneyFormat (49%N :: str "999.5") sample_world with
    | Returned v w' => Returned (45%N :: v) w'
    | Thrown e w' => Thrown e w'
    end.
Proof.
  assert (Hc : (is_digit 49%N || N.eqb 49 46) = true) by reflexivity.
  split; [exact Hc|].
  exact (convertToMoneyFormat_minus_sign 49%N (str "999.5") sample_world Hc).
Defined.

Lemma convertToMoneyFormat_whole_amount_witness :
  0 <= 1234567 < 2 ^ 53 /\
  convertToMoneyFormat (Currency.decimal 1234567) sample_world
  = Returned (str "$" ++ Currency.grouped (Currency.decimal 1234567)
                ++ str ".00") sample_world.
Proof.
  assert (Hn : 0 <= 1234567 < 2 ^ 53) by (split; [lia|reflexivity]).
  split; [exact Hn|].
  exact (proj1 (convertToMoneyFormat_whole_amount 1234567 sample_world Hn)).
Defined.

Lemma session_isVisible_of_absent : isVisible_of_absent (P := Session).
Proof.
  intros l p. cbn [matching locator_isVisible session_page].
  unfold lift, is_visible. destruct (resolve l (document p)); [|discriminate].
  intros _. now destruct p.
Qed.

Lemma acceptAlert_button_or_keyboard_witness :
  let p1 := {| document := sample_document; actions := [Waited 500] |} in
  isVisible_of_absent (P := Session) /\
  page_waitForTimeout 500 (page sample_session) = Returned tt p1 /\
  matching (page_locator (str "text=OK")) p1 = O /\
  acceptAlert sample_session
  = on_page (keyboard_press (str "Enter")) (with_page sample_session p1).
Proof.
  intros p1.
  assert (Hw : page_waitForTimeout 500 (page sample_session) = Returned tt p1)
    by reflexivity.
  assert (Ha : matching (page_locator (str "text=OK")) p1 = O)
    by (vm_compute; reflexivity).
  split; [exact session_isVisible_of_absent|]. split; [exact Hw|].
  split; [exact Ha|].
  exact (proj1 (acceptAlert_button_or_keyboard sample_session p1 p1
                  session_isVisible_of_absent Hw) Ha).
Defined.

Lemma dismissAlert_button_or_keyboard_witness :
  let p1 := {| document := sample_document; actions := [Waited 500] |} in
  isVisible_of_absent (P := Session) /\
  page_waitForTimeout 500 (page sample_session) = Returned tt p1 /\
  matching (page_locator (str "text=Cancel")) p1 = O /\
  dismissAlert sample_session
  = on_page (keyboard_press (str "Escape")) (with_page sample_session p1).
Proof.
  intros p1.
  assert (Hw : page_waitForTimeout 500 (page sample_session) = Returned tt p1)
    by reflexivity.
  assert (Ha : matching (page_locator (str "text=Cancel")) p1 = O)
    by (vm_compute; reflexivity).
  split; [exact session_isVisible_of_absent|]. split; [exact Hw|].
  split; [exact Ha|].
  exact (proj1 (dismissAlert_button_or_keyboard sample_session p1 p1
                  session_isVisible_of_absent Hw) Ha).
Defined.

Lemma selectAutoSuggestion_needs_suggestion_witness :
  let p1 := {| document := sample_document;
               actions := [Typed (str "#title") (str "Par")] |} in
  locator_type (page_locator (str "#title")) (str "Par") (page sample_session)
  = Returned tt p1 /\
  page_waitForSelector (str "text=" ++ str "Par") p1
  = Thrown timeout_error p1 /\
  selectAutoSuggestion (str "#title") (str "Par") sample_session
  = Thrown timeout_error (with_page sample_session p1).
Proof.
  intros p1.
  assert (Ht : locator_type (page_locator (str "#title")) (str "Par")
                 (page sample_session) = Returned tt p1)
    by (vm_compute; reflexivity).
  assert (Hw : page_waitForSelector (str "text=" ++ str "Par") p1
               = Thrown timeout_error p1) by (vm_compute; reflexivity).
  split; [exact Ht|]. split; [exact Hw|].
  exact (selectAutoSuggestion_needs_suggestion _ _ sample_session p1 p1
           timeout_error Ht Hw).
Defined.

Lemma waitAndClick_needs_visible_witness :
  locator_waitFor_visible (page_locator (str "#empty")) (page sample_session)
  = Thrown timeout_error (page sample_session) /\
  waitAndClick (str "#empty") sample_session
  = Thrown timeout_error (with_page sample_session (page sample_session)).
Proof.
  assert (Hw : locator_waitFor_visible (page_locator (str "#empty"))
                 (page sample_session)
               = Thrown timeout_error (page sample_session))
    by (vm_compute; reflexivity).
  split; [exact Hw|].
  exact (proj1 (waitAndClick_needs_visible (str "#empty") sample_session
                  (page sample_session) timeout_error) Hw).
Defined.
